(** * Texture atlas packing: a shallow embedding of [textureatlas.py]

    The development follows
    [amulet_map_editor/amulet_wx/world_manager/extensions/amulet_renderer/textureatlas.py].

    Python objects that are shared and mutated (the [Frame]s, which are
    referenced both from the [Texture] list and from the [PackRegion] tree)
    live in an explicit heap; a reference is an index into that heap.  The
    region tree itself is owned by a single atlas and is modelled as a value.

    Numbers: Python [int] is [Z].  The source leaves the integers in two
    places.  True division [a / b] yields the quotient as a rational ([Q])
    and raises [OverflowError] where the quotient is too large for a float.
    [math.ceil(pixels ** 0.5)] is computed in floats: [pixels] is rounded to
    a float, the root is taken by C's [pow], which is a parameter of the
    development, and the result is rounded up to an integer.

    Recursion: [PackRegion.pack] is a total function here.  Python gives up
    with [RecursionError] on a chain of regions deeper than its recursion
    limit; the theorems about a build that ends with an atlas take that end
    as a hypothesis. *)

From Stdlib Require Import ZArith QArith Lia.
From Stdlib.Strings Require Import Byte.
From stdpp Require Import base option list strings gmap sorting.

Close Scope Q_scope.
Open Scope Z_scope.

(** ** Exceptions and results *)

Inductive exn :=
| AtlasTooSmall (msg : string)      (* class AtlasTooSmall(Exception) *)
| ImageOpenError (filename : string) (* raised by [Image.open] *)
| IndexError                        (* [frames[0]] on an empty list *)
| ZeroDivisionError                 (* [a / 0] *)
| OverflowError                     (* an [int] too large for a float *)
| KeyError (key : string).          (* [d[k]] with [k] absent *)

Inductive result (A : Type) :=
| Ok (a : A)
| Raise (e : exn).
Arguments Ok {A} a.
Arguments Raise {A} e.

#[global] Instance result_ret : MRet result := fun A a => Ok a.
#[global] Instance result_bind : MBind result := fun A B k m =>
  match m with
  | Ok a => k a
  | Raise e => Raise e
  end.

(** ** Decoded images (the part of PIL the module relies on) *)

Record rgba := RGBA { red : byte; green : byte; blue : byte; alpha : byte }.

Definition transparent : rgba := RGBA x00 x00 x00 x00.

Module Image.
(** [size] is the pair [(width, height)]; [getpixel] gives the pixel at a
    column and a row, as it is once pasted into an RGBA canvas. *)
Record t := mk { width : Z; height : Z; getpixel : Z -> Z -> rgba }.

Definition blank : t := mk 0 0 (fun _ _ => transparent).
End Image.

(** [Image.open]: the files that can be decoded, by path. *)
Definition filesystem := string -> option Image.t.


(** ** class Packable *)

Module Packable.
Record t := mk { x : Z; y : Z; width : Z; height : Z }.

(** [__init__(self, width, height)] *)
Definition init (width height : Z) : t := mk 0 0 width height.

Definition set_x (self : t) (value : Z) : t :=
  mk value (y self) (width self) (height self).
Definition set_y (self : t) (value : Z) : t :=
  mk (x self) value (width self) (height self).

Definition perimeter (self : t) : Z := 2 * width self + 2 * height self.
End Packable.

(** ** class Frame(Packable) *)

Module Frame.
Record t := mk { base : Packable.t; filename : string; image : Image.t }.

Definition x (self : t) : Z := Packable.x (base self).
Definition y (self : t) : Z := Packable.y (base self).
Definition width (self : t) : Z := Packable.width (base self).
Definition height (self : t) : Z := Packable.height (base self).
Definition perimeter (self : t) : Z := Packable.perimeter (base self).

Definition set_x (self : t) (value : Z) : t :=
  mk (Packable.set_x (base self) value) (filename self) (image self).
Definition set_y (self : t) (value : Z) : t :=
  mk (Packable.set_y (base self) value) (filename self) (image self).

(** [__init__(self, filename)]: opens the image and takes its size. *)
Definition init (fs : filesystem) (filename : string) : result t :=
  match fs filename with
  | None => Raise (ImageOpenError filename)
  | Some img =>
      Ok (mk (Packable.init (Image.width img) (Image.height img)) filename img)
  end.

Definition default : t := mk (Packable.init 0 0) "" Image.blank.
End Frame.

#[global] Instance frame_inhabited : Inhabited Frame.t := populate Frame.default.

(** ** The heap of frames

    A reference to a [Frame] is its index in the heap.  Python references
    never dangle; the model reads a default frame at an index that was never
    allocated, and the theorems below say where indices are allocated. *)

Abbreviation addr := nat (only parsing).
Abbreviation heap := (list Frame.t) (only parsing).

Definition alloc (h : heap) (f : Frame.t) : addr * heap := (length h, h ++ [f]).

(** ** class PackRegion *)

Module PackRegion.
(** The fields [_packable], [_sub1] and [_sub2] are [None] from the
    constructor on and are set together, once, by [pack]: a region is
    either [Empty] or [Packed].  A [Packable] defines neither [__bool__]
    nor [__len__], so [not self._packable] tests for [None]. *)
Inductive t :=
| Empty (x y width height : Z)
| Packed (x y width height : Z) (packable : addr) (sub1 sub2 : t).

(** [__init__(self, x, y, width, height)] *)
Definition init (x y width height : Z) : t := Empty x y width height.

Definition x (self : t) : Z :=
  match self with Empty x _ _ _ | Packed x _ _ _ _ _ _ => x end.
Definition y (self : t) : Z :=
  match self with Empty _ y _ _ | Packed _ y _ _ _ _ _ => y end.
Definition width (self : t) : Z :=
  match self with Empty _ _ w _ | Packed _ _ w _ _ _ _ => w end.
Definition height (self : t) : Z :=
  match self with Empty _ _ _ h | Packed _ _ _ h _ _ _ => h end.
Definition packable (self : t) : option addr :=
  match self with Empty _ _ _ _ => None | Packed _ _ _ _ p _ _ => Some p end.

Fixpoint get_all_packables (self : t) : list addr :=
  match self with
  | Empty _ _ _ _ => []
  | Packed _ _ _ _ p sub1 sub2 =>
      [p] ++ get_all_packables sub1 ++ get_all_packables sub2
  end.

(** [pack(self, packable)]: the returned triple is the Boolean the method
    returns, the region after the call and the heap after the call. *)
Fixpoint pack (self : t) (packable : addr) (h : heap) : bool * t * heap :=
  match self with
  | Empty x y width height =>
      let p := h !!! packable in
      if (Frame.width p >? width) || (Frame.height p >? height)
      then (false, self, h)
      else
        let p' := Frame.set_y (Frame.set_x p x) y in
        (true,
         Packed x y width height packable
           (Empty x (y + Frame.height p') (Frame.width p')
              (height - Frame.height p'))
           (Empty (x + Frame.width p') y (width - Frame.width p') height),
         <[packable := p']> h)
  | Packed x y width height q sub1 sub2 =>
      let '(ok1, sub1', h1) := pack sub1 packable h in
      if ok1 then (true, Packed x y width height q sub1' sub2, h1)
      else
        let '(ok2, sub2', h2) := pack sub2 packable h1 in
        (ok2, Packed x y width height q sub1' sub2', h2)
  end.
End PackRegion.

(** ** class Texture *)

Module Texture.
Record t := mk { name : string; frames : list addr }.
End Texture.

(** ** Canvases (PIL images that are drawn into) *)

Module Canvas.
(** Pixels are kept row by row, the top row first. *)
Record t := mk { width : Z; height : Z; data : list rgba }.

(** [Image.new('RGBA', (width, height))]: every pixel is zero. *)
Definition new (width height : Z) : t :=
  mk width height (replicate (Z.to_nat (width * height)) transparent).

(** [image.paste(im, (x, y))]: the pixels of [im] replace those of the
    canvas in the box at [(x, y)]; what falls outside the canvas is lost. *)
Definition paste (self : t) (im : Image.t) (x y : Z) : t :=
  mk (width self) (height self)
     (imap (fun k old =>
              let col := Z.of_nat k mod width self in
              let row := Z.of_nat k / width self in
              if (x <=? col) && (col <? x + Image.width im)
                 && (y <=? row) && (row <? y + Image.height im)
              then Image.getpixel im (col - x) (row - y)
              else old)
           (data self)).

(** [numpy.array(image, numpy.uint8).ravel()] *)
Definition ravel (self : t) : list byte :=
  flat_map (fun px => [red px; green px; blue px; alpha px]) (data self).
End Canvas.

(** [Frame.draw(self, image)] *)
Definition draw (self : Frame.t) (image : Canvas.t) : Canvas.t :=
  Canvas.paste image (Frame.image self) (Frame.x self) (Frame.y self).

(** ** True division and UV bounds *)

Definition uv := (Q * Q * Q * Q)%type.

(** Two UV entries denote the same four numbers. *)
Definition uv_eq (a b : uv) : Prop :=
  let '(a0, a1, a2, a3) := a in
  let '(b0, b1, b2, b3) := b in
  (a0 == b0)%Q /\ (a1 == b1)%Q /\ (a2 == b2)%Q /\ (a3 == b3)%Q.

(** The least integer that is too large for a float: the largest float is
    [2^1024 - 2^971], and rounding to nearest takes everything from half a
    step above it on to infinity. *)
Definition float_limit : Z := 2 ^ 1024 - 2 ^ 970.
Arguments float_limit : simpl never.

(** The quotient [a / b] rounds to a float beyond the largest one. *)
Definition too_large (a b : Z) : bool := float_limit * Z.abs b <=? Z.abs a.

(** [a / b] on two [int]s: the quotient, unless [b] is zero or the
    quotient is too large for a float. *)
Definition truediv (a b : Z) : result Q :=
  if b =? 0 then Raise ZeroDivisionError
  else if too_large a b then Raise OverflowError
  else Ok (inject_Z a / inject_Z b)%Q.

(** ** class TextureAtlas(PackRegion) *)

Module TextureAtlas.
Record t := mk { region : PackRegion.t; textures : list Texture.t }.

(** [__init__(self, width, height)] *)
Definition init (width height : Z) : t :=
  mk (PackRegion.init 0 0 width height) [].

Definition width (self : t) : Z := PackRegion.width (region self).
Definition height (self : t) : Z := PackRegion.height (region self).

(** The loop [for frame in texture.frames] of [pack].  An exception leaves
    the atlas and the heap as they are when it is raised. *)
Fixpoint pack_frames (self : t) (frames : list addr) (h : heap)
  : result unit * t * heap :=
  match frames with
  | [] => (Ok tt, self, h)
  | frame :: rest =>
      let '(ok, region', h') := PackRegion.pack (region self) frame h in
      let self' := mk region' (textures self) in
      if negb ok
      then (Raise (AtlasTooSmall
                     (String.append "Failed to pack frame "
                        (Frame.filename (h' !!! frame)))),
            self', h')
      else pack_frames self' rest h'
  end.

(** [pack(self, texture)] *)
Definition pack (self : t) (texture : Texture.t) (h : heap)
  : result unit * t * heap :=
  let self' := mk (region self) (textures self ++ [texture]) in
  pack_frames self' (Texture.frames texture) h.

(** The tuple that [to_dict] computes for one texture. *)
Definition bounds (self : t) (h : heap) (tex : Texture.t) : result uv :=
  match Texture.frames tex with
  | [] => Raise IndexError
  | frame0 :: _ =>
      let f := h !!! frame0 in
      u0 ← truediv (Frame.x f) (width self);
      v0 ← truediv (Frame.y f) (height self);
      u1 ← truediv (Frame.x f + Frame.width f) (width self);
      v1 ← truediv (Frame.y f + Z.min (Frame.height f) (Frame.width f))
                   (height self);
      Ok (u0, v0, u1, v1)
  end.

(** [to_dict(self)]: a dict comprehension, so a later texture replaces the
    entry of an earlier one with the same name. *)
Definition to_dict (self : t) (h : heap) : result (gmap string uv) :=
  foldl (fun acc tex =>
           d ← acc;
           b ← bounds self h tex;
           Ok (<[Texture.name tex := b]> d))
        (Ok ∅) (textures self).

(** [generate(self, mode)] for [mode = 'RGBA'] *)
Definition generate (self : t) (h : heap) : Canvas.t :=
  foldl (fun out t =>
           foldl (fun out f => draw (h !!! f) out) out (Texture.frames t))
        (Canvas.new (width self) (height self)) (textures self).
End TextureAtlas.

(** ** Pieces of [create_atlas] *)

(** [[Frame(f) for f in frames]]: every frame is a new object. *)
Fixpoint new_frames (fs : filesystem) (frames : list string) (h : heap)
  : result (list addr * heap) :=
  match frames with
  | [] => Ok ([], h)
  | f :: rest =>
      frame ← Frame.init fs f;
      let '(a, h1) := alloc h frame in
      '(others, h2) ← new_frames fs rest h1;
      Ok (a :: others, h2)
  end.

(** The loop [for texture in texture_dict.values()] (lines 241 to 250). *)
Fixpoint parse_textures (fs : filesystem) (values : list string)
    (textures : list Texture.t) (h : heap) : result (list Texture.t * heap) :=
  match values with
  | [] => Ok (textures, h)
  | texture :: rest =>
      let name := texture in
      '(frames, h1) ← new_frames fs [texture] h;
      parse_textures fs rest (textures ++ [Texture.mk name frames]) h1
  end.

(** [sorted(l, key=key, reverse=True)]: the keys are computed first, then
    the list is put in non-increasing key order, elements with equal keys
    keeping their order (Python's sort is stable, also when reversed). *)
Fixpoint insert_desc {A} (ka : Z * A) (l : list (Z * A)) : list (Z * A) :=
  match l with
  | [] => [ka]
  | kb :: l' => if kb.1 >? ka.1 then kb :: insert_desc ka l' else ka :: l
  end.

Definition sorted_reverse {A} (key : A -> result Z) (l : list A)
  : result (list A) :=
  keyed ← mapM (fun a => k ← key a; Ok (k, a)) l;
  Ok (snd <$> foldr insert_desc [] keyed).

(** [lambda i: i.frames[0].perimeter] *)
Definition perimeter_key (h : heap) (i : Texture.t) : result Z :=
  match Texture.frames i with
  | [] => Raise IndexError
  | frame0 :: _ => Ok (Frame.perimeter (h !!! frame0))
  end.

(** The loops of lines 255 to 262: [(height, width, pixels)]. *)
Definition measure (h : heap) (textures : list Texture.t) : Z * Z * Z :=
  foldl (fun acc t =>
           foldl (fun '(height, width, pixels) f =>
                    (Z.max (Frame.height (h !!! f)) height,
                     Z.max (Frame.width (h !!! f)) width,
                     pixels + Frame.height (h !!! f) * Frame.width (h !!! f)))
                 acc (Texture.frames t))
        (0, 0, 0) textures.

(** [int.bit_length]: the number of bits of the absolute value. *)
Definition bit_length (n : Z) : Z :=
  match n with
  | 0 => 0
  | Z.pos p | Z.neg p => Z.pos (Pos.size p)
  end.

(** ** Floats

    The floats that the size computation goes through are not negative.
    Such a float is an integer, or a pair [(m, e)] that stands for
    [m * 2^e], where [m] has at most 53 bits. *)

(** [float(n)] for [0 <= n < float_limit]: [n] rounded to 53 significant
    bits, a tie going to the even neighbour.  The result is an integer. *)
Definition float_of_int (n : Z) : Z :=
  let e := bit_length n - 53 in
  if e <=? 0 then n
  else
    let q := n / 2 ^ e in
    let r := n mod 2 ^ e in
    let half := 2 ^ (e - 1) in
    if (half <? r) || ((r =? half) && Z.odd q)
    then (q + 1) * 2 ^ e else q * 2 ^ e.

(** [math.ceil(x)] of the float [m * 2^e]. *)
Definition float_ceil (x : Z * Z) : Z :=
  let '(m, e) := x in
  if 0 <=? e then m * 2 ^ e else - ((- m) / 2 ^ (- e)).

(** The exponent of the float next to the square root of [x]: the integer
    part of the root has [bit_length] bits, of which 53 are kept. *)
Definition sqrt_exponent (x : Z) : Z := bit_length (Z.sqrt x) - 53.

(** The square root of [x] cut to a multiple of [2^sqrt_exponent x]: the
    largest [f] with [f * 2^e <= sqrt x]. *)
Definition sqrt_floor (x : Z) : Z :=
  let e := sqrt_exponent x in
  if e <=? 0 then Z.sqrt (x * 4 ^ (- e)) else Z.sqrt (x / 4 ^ e).

(** The square root of [x] is itself such a multiple. *)
Definition sqrt_is_float (x : Z) : bool :=
  let e := sqrt_exponent x in
  let f := sqrt_floor x in
  if e <=? 0 then f * f =? x * 4 ^ (- e) else f * f * 4 ^ e =? x.

(** [y], written with the exponent [sqrt_exponent x], is one of the two
    floats next to the square root of [x], and the root itself where the
    root is a float. *)
Definition faithful_sqrt (x : Z) (y : Z * Z) : Prop :=
  y.2 = sqrt_exponent x /\
  (y.1 = sqrt_floor x \/
   (y.1 = sqrt_floor x + 1 /\ sqrt_is_float x = false)).

(** The square root rounded to the nearest float. *)
Definition nearest_sqrt (x : Z) : Z * Z :=
  let e := sqrt_exponent x in
  let f := sqrt_floor x in
  if e <=? 0
  then (if f * f + f <? x * 4 ^ (- e) then f + 1 else f, e)
  else (if (2 * f + 1) * (2 * f + 1) * 4 ^ (e - 1) <? x then f + 1 else f, e).

(** [x ** 0.5] on a float is C's [pow(x, 0.5)].  That function is not part
    of the source, and its last bit differs between C libraries: it need
    not be the float nearest to the root.  It is taken as a parameter, of
    which the development uses what the C libraries in use provide: the
    result is one of the two floats next to the root, and exact where the
    root is a float. *)
Class FloatPow := {
  pow_half : Z -> Z * Z;
  pow_half_faithful x : 0 <= x -> faithful_sqrt x (pow_half x) }.

Section FloatPower.
Context {libm : FloatPow}.

(** [math.ceil(pixels ** 0.5)], for [0 <= pixels < float_limit]. *)
Definition ceil_sqrt (pixels : Z) : Z :=
  float_ceil (pow_half (float_of_int pixels)).

(** Lines 264 to 268. *)
Definition initial_size (height width pixels : Z) : Z :=
  Z.max height (Z.max width (Z.shiftl 1 (bit_length (ceil_sqrt pixels - 1)))).

(** The loop [for texture in textures: atlas.pack(texture)]. *)
Fixpoint pack_textures (atlas : TextureAtlas.t) (textures : list Texture.t)
    (h : heap) : result unit * TextureAtlas.t * heap :=
  match textures with
  | [] => (Ok tt, atlas, h)
  | texture :: rest =>
      let '(r, atlas', h') := TextureAtlas.pack atlas texture h in
      match r with
      | Ok _ => pack_textures atlas' rest h'
      | Raise e => (Raise e, atlas', h')
      end
  end.

(** One turn of the [while] loop: a new atlas of the given size and the
    attempt to pack every texture into it. *)
Definition attempt (size : Z) (textures : list Texture.t) (h : heap)
  : result unit * TextureAtlas.t * heap :=
  pack_textures (TextureAtlas.init size size) textures h.

(** The loop [while not atlas_created] (lines 270 to 283).  The loop has no
    bound in the source; [None] says that [fuel] turns were not enough. *)
Fixpoint pack_loop (fuel : nat) (size : Z) (textures : list Texture.t)
    (h : heap) : option (result (TextureAtlas.t * heap)) :=
  match fuel with
  | O => None
  | S fuel' =>
      let '(r, atlas, h') := attempt size textures h in
      match r with
      | Ok _ => Some (Ok (atlas, h'))
      | Raise (AtlasTooSmall _) => pack_loop fuel' (size * 2) textures h'
      | Raise e => Some (Raise e)
      end
  end.

(** ** [create_atlas]

    [texture_dict] is a Python dict: its items in insertion order, the keys
    being pairwise different. *)

Section CreateAtlas.
Context {K : Type}.

(** Lines 241 to 268: the sorted textures, the heap that holds their
    frames, and the first candidate size.  [pixels ** 0.5] turns [pixels]
    into a float first, which raises [OverflowError] from [float_limit]
    on. *)
Definition prepare (fs : filesystem) (texture_dict : list (K * string))
  : result (list Texture.t * heap * Z) :=
  '(textures, h) ← parse_textures fs (snd <$> texture_dict) [] [];
  textures ← sorted_reverse (perimeter_key h) textures;
  let '(height, width, pixels) := measure h textures in
  if float_limit <=? pixels then Raise OverflowError
  else Ok (textures, h, initial_size height width pixels).

(** Lines 239 to 284: the atlas that the loop ends with, and the heap. *)
Definition build (fs : filesystem) (texture_dict : list (K * string))
    (fuel : nat) : option (result (TextureAtlas.t * heap)) :=
  match prepare fs texture_dict with
  | Raise e => Some (Raise e)
  | Ok (textures, h, size) => pack_loop fuel size textures h
  end.

(** Lines 287 to 293. *)
Definition finish (texture_dict : list (K * string))
    (atlas : TextureAtlas.t) (h : heap)
  : result (list byte * list (K * uv) * Z * Z) :=
  let texture_atlas := Canvas.ravel (TextureAtlas.generate atlas h) in
  texture_bounds ← TextureAtlas.to_dict atlas h;
  texture_bounds ←
    mapM (fun '(tex_id, texture_path) =>
            match texture_bounds !! texture_path with
            | Some b => Ok (tex_id, b)
            | None => Raise (KeyError texture_path)
            end)
         texture_dict;
  Ok (texture_atlas, texture_bounds,
      TextureAtlas.width atlas, TextureAtlas.height atlas).

Definition create_atlas (fs : filesystem) (texture_dict : list (K * string))
    (fuel : nat) : option (result (list byte * list (K * uv) * Z * Z)) :=
  match build fs texture_dict fuel with
  | None => None
  | Some (Raise e) => Some (Raise e)
  | Some (Ok (atlas, h)) => Some (finish texture_dict atlas h)
  end.
End CreateAtlas.

(** ** Vocabulary of the properties *)

(** The frames that a list of textures refers to, in packing order. *)
Definition frames_of (textures : list Texture.t) : list addr :=
  textures ≫= Texture.frames.

(** The point [(px, py)] lies in the half-open box
    [[x, x+width) x [y, y+height)] of the frame. *)
Definition covers (f : Frame.t) (px py : Z) : Prop :=
  Frame.x f <= px < Frame.x f + Frame.width f /\
  Frame.y f <= py < Frame.y f + Frame.height f.

(** The boxes of two frames intersect: they have a point in common. *)
Definition intersect (f g : Frame.t) : Prop :=
  exists px py, covers f px py /\ covers g px py.

(** The box of the frame lies in the box at [(x, y)] of the given size. *)
Definition within (f : Frame.t) (x y width height : Z) : Prop :=
  x <= Frame.x f /\ y <= Frame.y f /\
  Frame.x f + Frame.width f <= x + width /\
  Frame.y f + Frame.height f <= y + height.

(** No frame of the heap has a negative width or height. *)
Definition sizes_ok (h : heap) : Prop :=
  Forall (fun f => 0 <= Frame.width f /\ 0 <= Frame.height f) h.

(** Every image that can be opened has a size without negative part, as
    every PIL image has. *)
Definition decodes_ok (fs : filesystem) : Prop :=
  forall path img, fs path = Some img ->
    0 <= Image.width img /\ 0 <= Image.height img.

(** Two heaps hold the same frames up to their positions. *)
Definition same_frames (h1 h2 : heap) : Prop :=
  Forall2 (fun f g =>
             Frame.width f = Frame.width g /\ Frame.height f = Frame.height g /\
             Frame.filename f = Frame.filename g /\
             Frame.image f = Frame.image g) h1 h2.

(** The states that a root region of side [size] at [(0, 0)] goes through
    under any sequence of [pack] calls. *)
Inductive reachable (size : Z) : PackRegion.t -> heap -> Prop :=
| reachable_init h :
    sizes_ok h ->
    reachable size (PackRegion.init 0 0 size size) h
| reachable_pack r h p ok r' h' :
    reachable size r h ->
    PackRegion.pack r p h = (ok, r', h') ->
    reachable size r' h'.

(** Every node of the region tree lies in the box at [(X, Y)]. *)
Fixpoint nodes_within (X Y W H : Z) (r : PackRegion.t) : Prop :=
  X <= PackRegion.x r /\ Y <= PackRegion.y r /\
  PackRegion.x r + PackRegion.width r <= X + W /\
  PackRegion.y r + PackRegion.height r <= Y + H /\
  match r with
  | PackRegion.Empty _ _ _ _ => True
  | PackRegion.Packed _ _ _ _ _ sub1 sub2 =>
      nodes_within X Y W H sub1 /\ nodes_within X Y W H sub2
  end.

(** The region tree agrees with the heap: the frame of a packed region sits
    at the origin of the region and fits in it, and the two sub-regions are
    the strip below the frame and the area to its right. *)
Fixpoint layout (h : heap) (r : PackRegion.t) : Prop :=
  match r with
  | PackRegion.Empty _ _ _ _ => True
  | PackRegion.Packed x y width height p sub1 sub2 =>
      let f := h !!! p in
      Frame.x f = x /\ Frame.y f = y /\
      0 <= Frame.width f <= width /\ 0 <= Frame.height f <= height /\
      PackRegion.x sub1 = x /\ PackRegion.y sub1 = y + Frame.height f /\
      PackRegion.width sub1 = Frame.width f /\
      PackRegion.height sub1 = height - Frame.height f /\
      PackRegion.x sub2 = x + Frame.width f /\ PackRegion.y sub2 = y /\
      PackRegion.width sub2 = width - Frame.width f /\
      PackRegion.height sub2 = height /\
      layout h sub1 /\ layout h sub2
  end.

(** The empty region reached by following [sub2] from the root. *)
Fixpoint rightmost (r : PackRegion.t) : Z * Z :=
  match r with
  | PackRegion.Empty _ _ width height => (width, height)
  | PackRegion.Packed _ _ _ _ _ _ sub2 => rightmost sub2
  end.

(** What a sequence of [pack] calls that stops at the first refusal does to
    a region and to the heap; the first component is the refused frame. *)
Fixpoint pack_all (r : PackRegion.t) (frames : list addr) (h : heap)
  : option addr * PackRegion.t * heap :=
  match frames with
  | [] => (None, r, h)
  | frame :: rest =>
      let '(ok, r', h') := PackRegion.pack r frame h in
      if ok then pack_all r' rest h' else (Some frame, r', h')
  end.

(** The outcome of [TextureAtlas.pack] when [refused] is the refused frame. *)
Definition outcome (refused : option addr) (h : heap) : result unit :=
  match refused with
  | None => Ok tt
  | Some frame =>
      Raise (AtlasTooSmall
               (String.append "Failed to pack frame "
                  (Frame.filename (h !!! frame))))
  end.

(** The frame that [Frame(filename)] builds from the decoded image. *)
Definition frame_of_image (filename : string) (img : Image.t) : Frame.t :=
  Frame.mk (Packable.init (Image.width img) (Image.height img)) filename img.

(** The textures of an input before they are sorted: one per value of the
    dict, named after the path, with the frame allocated for it. *)
Definition textures_of (base : nat) (values : list string) : list Texture.t :=
  imap (fun i path => Texture.mk path [(base + i)%nat]) values.

(** The frames can sit side by side in a square of side [size]: their
    widths add up to at most [size] and none is higher than [size]. *)
Definition roomy (size : Z) (h : heap) (frames : list addr) : Prop :=
  foldr Z.add 0 ((fun f => Frame.width (h !!! f)) <$> frames) <= size /\
  Forall (fun f => Frame.height (h !!! f) <= size) frames.

(** *** The size formula, in the words of the specification *)

Definition max_frame_height (h : heap) : Z :=
  foldr Z.max 0 (Frame.height <$> h).
Definition max_frame_width (h : heap) : Z :=
  foldr Z.max 0 (Frame.width <$> h).
Definition total_pixel_area (h : heap) : Z :=
  foldr Z.add 0 ((fun f => Frame.height f * Frame.width f) <$> h).

(** [m] is the largest number of the list. *)
Definition is_max_of (l : list Z) (m : Z) : Prop :=
  m ∈ l /\ forall x, x ∈ l -> x <= m.

(** [k] is the ceiling of the square root of [n]. *)
Definition is_ceil_sqrt (n k : Z) : Prop :=
  0 <= k /\ n <= k * k /\ forall j, 0 <= j -> n <= j * j -> k <= j.

(** [p] is the smallest power of two that is at least [n]. *)
Definition is_next_power_of_two (n p : Z) : Prop :=
  (exists e, 0 <= e /\ p = 2 ^ e) /\ n <= p /\
  forall e, 0 <= e -> n <= 2 ^ e -> p <= 2 ^ e.

(** The UV tuple of the specification for a frame in an atlas of the given
    width and height. *)
Definition uv_formula (f : Frame.t) (W H : Z) : uv :=
  ((inject_Z (Frame.x f) / inject_Z W)%Q,
   (inject_Z (Frame.y f) / inject_Z H)%Q,
   (inject_Z (Frame.x f + Frame.width f) / inject_Z W)%Q,
   (inject_Z (Frame.y f + Z.min (Frame.height f) (Frame.width f))
    / inject_Z H)%Q).

(** ** Example inputs *)

(** An image of one colour. *)
Definition solid (width height : Z) : Image.t :=
  Image.mk width height (fun _ _ => RGBA xff xff xff xff).

(** The file system that holds the listed images. *)
Fixpoint files (l : list (string * Image.t)) : filesystem :=
  fun path =>
    match l with
    | [] => None
    | (name, img) :: rest =>
        if String.eqb path name then Some img else files rest path
    end.

Definition example_files : filesystem :=
  files [("a.png", solid 5 5); ("b.png", solid 3 4); ("c.png", solid 2 5)].

(** Three images that do not fit the first candidate size of 8. *)
Definition example_dict : list (string * string) :=
  [("a", "a.png"); ("b", "b.png"); ("c", "c.png")].

(** One image under two keys. *)
Definition duplicate_dict : list (string * string) :=
  [("k1", "a.png"); ("k2", "a.png")].

(** One image. *)
Definition single_dict : list (string * string) := [("k", "b.png")].



(** A total pixel area of [2^54 + 1] in two images, the larger one beyond
    the size that PIL opens unless its limit [Image.MAX_IMAGE_PIXELS] is
    lifted. *)
Definition large_files : filesystem :=
  files [("sheet.png", solid (2 ^ 27) (2 ^ 27)); ("dot.png", solid 1 1)].

Definition large_dict : list (string * string) :=
  [("s", "sheet.png"); ("d", "dot.png")].

(** The same area in [2^28] strips of [2^26] by 1, each within that limit,
    and the dot. *)
Definition strip_files : filesystem :=
  files [("strip.png", solid (2 ^ 26) 1); ("dot.png", solid 1 1)].

Definition strip_paths (n : nat) : list string :=
  replicate n "strip.png" ++ ["dot.png"].

Definition strip_frames (n : nat) : heap :=
  replicate n (frame_of_image "strip.png" (solid (2 ^ 26) 1))
    ++ [frame_of_image "dot.png" (solid 1 1)].

Definition strip_count : nat := Z.to_nat (2 ^ 28).

Definition strip_dict : list (nat * string) :=
  zip (seq 0 (S strip_count)) (strip_paths strip_count).

(** ** Vocabulary of the further properties *)

(** The sum of the areas of the listed frames. *)
Definition area_sum (h : heap) (frames : list addr) : Z :=
  foldr Z.add 0 ((fun f => Frame.height (h !!! f) * Frame.width (h !!! f)) <$> frames).

(** The pixel of a canvas at a column and a row. *)
Definition pixel_at (c : Canvas.t) (col row : Z) : option rgba :=
  Canvas.data c !! Z.to_nat (row * Canvas.width c + col).

(** What goes wrong when [to_dict] computes the tuple of a texture, in the
    order of evaluation: [frames[0]] first, then the four divisions from
    left to right, each failing on a zero divisor or else on a quotient too
    large for a float. *)
Definition texture_failure (self : TextureAtlas.t) (h : heap)
    (tex : Texture.t) : option exn :=
  match Texture.frames tex with
  | [] => Some IndexError
  | frame0 :: _ =>
      let f := h !!! frame0 in
      let W := TextureAtlas.width self in
      let H := TextureAtlas.height self in
      if W =? 0 then Some ZeroDivisionError
      else if too_large (Frame.x f) W then Some OverflowError
      else if H =? 0 then Some ZeroDivisionError
      else if too_large (Frame.y f) H then Some OverflowError
      else if too_large (Frame.x f + Frame.width f) W then Some OverflowError
      else if too_large (Frame.y f + Z.min (Frame.height f) (Frame.width f)) H
      then Some OverflowError
      else None
  end.

(** The sort key of a texture, for a texture with a frame. *)
Definition texture_perimeter (h : heap) (t : Texture.t) : Z :=
  match Texture.frames t with
  | [] => 0
  | frame0 :: _ => Frame.perimeter (h !!! frame0)
  end.

(** The sum of the widths of all the frames. *)
Definition total_frame_width (h : heap) : Z :=
  foldr Z.add 0 (Frame.width <$> h).

(** A number between 0 and 1. *)
Definition in_unit (q : Q) : Prop := (0 <= q)%Q /\ (q <= 1)%Q.

(** * Properties *)

(** ** [PackRegion.pack]: what a call changes *)

(** A call that returns [False] changes neither the region nor the heap. *)
Lemma pack_false r p h r' h' :
  PackRegion.pack r p h = (false, r', h') -> r' = r /\ h' = h.
Proof.
  revert h r' h'.
  induction r as [x y w hh | x y w hh q s1 IH1 s2 IH2]; intros h r' h'; simpl.
  - destruct (_ || _); intros [= <- <-]; auto.
  - destruct (PackRegion.pack s1 p h) as [[ok1 s1'] h1] eqn:E1.
    destruct ok1; [intros [=] |].
    destruct (IH1 _ _ _ E1) as [-> ->].
    destruct (PackRegion.pack s2 p h) as [[ok2 s2'] h2] eqn:E2.
    intros [= -> <- <-].
    destruct (IH2 _ _ _ E2) as [-> ->]; auto.
Qed.

(** A call writes at most the position of the frame it is given. *)
Lemma pack_heap r p h ok r' h' :
  PackRegion.pack r p h = (ok, r', h') ->
  h' = h \/
  exists x y, h' = <[p := Frame.set_y (Frame.set_x (h !!! p) x) y]> h.
Proof.
  revert h ok r' h'.
  induction r as [x y w hh | x y w hh q s1 IH1 s2 IH2]; intros h ok r' h'; simpl.
  - destruct (_ || _); intros [= <- <- <-]; eauto.
  - destruct (PackRegion.pack s1 p h) as [[ok1 s1'] h1] eqn:E1.
    destruct ok1.
    + intros [= <- <- <-]. eauto.
    + destruct (pack_false _ _ _ _ _ E1) as [-> ->].
      destruct (PackRegion.pack s2 p h) as [[ok2 s2'] h2] eqn:E2.
      intros [= <- <- <-]. eauto.
Qed.

Lemma pack_length r p h ok r' h' :
  PackRegion.pack r p h = (ok, r', h') -> length h' = length h.
Proof.
  intros E. destruct (pack_heap _ _ _ _ _ _ E) as [-> | (x & y & ->)]; [done |].
  by rewrite length_insert.
Qed.

Lemma pack_other r p h ok r' h' q :
  PackRegion.pack r p h = (ok, r', h') -> q <> p -> h' !!! q = h !!! q.
Proof.
  intros E Hq. destruct (pack_heap _ _ _ _ _ _ E) as [-> | (x & y & ->)]; [done |].
  by rewrite list_lookup_total_insert_ne.
Qed.

(** The region keeps its origin and its size. *)
Lemma pack_bounds r p h ok r' h' :
  PackRegion.pack r p h = (ok, r', h') ->
  PackRegion.x r' = PackRegion.x r /\ PackRegion.y r' = PackRegion.y r /\
  PackRegion.width r' = PackRegion.width r /\
  PackRegion.height r' = PackRegion.height r.
Proof.
  destruct r as [x y w hh | x y w hh q s1 s2]; simpl.
  - destruct (_ || _); intros [= <- <- <-]; auto.
  - destruct (PackRegion.pack s1 p h) as [[ok1 s1'] h1].
    destruct ok1; [intros [= <- <- <-]; auto |].
    destruct (PackRegion.pack s2 p h1) as [[ok2 s2'] h2].
    intros [= <- <- <-]; auto.
Qed.

(** Width, height, file name and image of every frame stay as they are. *)
Lemma same_frames_refl h : same_frames h h.
Proof. apply Forall2_same_length_lookup_2; [done |]. intros i f g ? ?. by simplify_eq. Qed.

Lemma same_frames_trans h1 h2 h3 :
  same_frames h1 h2 -> same_frames h2 h3 -> same_frames h1 h3.
Proof.
  unfold same_frames. intros H12 H23.
  eapply Forall2_trans; [| exact H12 | exact H23].
  simpl. intros f g k (? & ? & ? & ?) (? & ? & ? & ?). repeat split; congruence.
Qed.

Lemma same_frames_insert h p x y :
  same_frames h (<[p := Frame.set_y (Frame.set_x (h !!! p) x) y]> h).
Proof.
  apply Forall2_same_length_lookup_2; [by rewrite length_insert |].
  intros i f g Hf Hg.
  destruct (decide (i = p)) as [-> | Hne].
  - rewrite list_lookup_insert_eq in Hg by (by eapply lookup_lt_Some).
    rewrite (list_lookup_total_correct _ _ _ Hf) in Hg.
    by simplify_eq.
  - rewrite list_lookup_insert_ne in Hg by done. by simplify_eq.
Qed.

Lemma pack_same_frames r p h ok r' h' :
  PackRegion.pack r p h = (ok, r', h') -> same_frames h h'.
Proof.
  intros E. destruct (pack_heap _ _ _ _ _ _ E) as [-> | (x & y & ->)].
  - apply same_frames_refl.
  - apply same_frames_insert.
Qed.

Lemma same_frames_lookup h h' q :
  same_frames h h' ->
  Frame.width (h' !!! q) = Frame.width (h !!! q) /\
  Frame.height (h' !!! q) = Frame.height (h !!! q) /\
  Frame.filename (h' !!! q) = Frame.filename (h !!! q) /\
  Frame.image (h' !!! q) = Frame.image (h !!! q).
Proof.
  intros Hs. rewrite !list_lookup_total_alt.
  destruct (h !! q) as [f |] eqn:Hf.
  - destruct (Forall2_lookup_l _ _ _ _ _ Hs Hf) as (g & -> & ? & ? & ? & ?).
    simpl. auto.
  - apply lookup_ge_None in Hf. rewrite (Forall2_length _ _ _ Hs) in Hf.
    apply lookup_ge_None in Hf. by rewrite Hf.
Qed.

Lemma sizes_ok_lookup h q :
  sizes_ok h -> 0 <= Frame.width (h !!! q) /\ 0 <= Frame.height (h !!! q).
Proof.
  intros Hs. rewrite list_lookup_total_alt.
  destruct (h !! q) as [f |] eqn:Hf; simpl.
  - exact (proj1 (Forall_lookup _ _) Hs _ _ Hf).
  - done.
Qed.

Lemma sizes_ok_same h h' : sizes_ok h -> same_frames h h' -> sizes_ok h'.
Proof.
  intros Hs Hsame. apply Forall_lookup. intros q g Hg.
  destruct (same_frames_lookup _ _ q Hsame) as (Hw & Hh & _).
  rewrite (list_lookup_total_correct _ _ _ Hg) in Hw, Hh.
  rewrite Hw, Hh. by apply sizes_ok_lookup.
Qed.

Lemma pack_sizes_ok r p h ok r' h' :
  PackRegion.pack r p h = (ok, r', h') -> sizes_ok h -> sizes_ok h'.
Proof. intros E Hs. eapply sizes_ok_same; [done |]. by eapply pack_same_frames. Qed.

(** ** [PackRegion.pack]: the three cases *)

(** C3.  An empty region takes a rectangle that fits: the rectangle gets the
    origin of the region, the region gets the two empty children [sub1]
    (below the rectangle, as wide as the rectangle) and [sub2] (to its right,
    as high as the region), and the call returns [True].  An empty region
    refuses a rectangle that does not fit and changes nothing.  A packed
    region asks [sub1]; if [sub1] takes the rectangle, [sub2] is left alone;
    if [sub1] refuses, which changes nothing, the answer is that of [sub2]. *)
Theorem pack_three_cases :
  (forall x y width height packable (h : heap),
      let f := h !!! packable in
      Frame.width f <= width -> Frame.height f <= height ->
      let h' := <[packable := Frame.set_y (Frame.set_x f x) y]> h in
      PackRegion.pack (PackRegion.Empty x y width height) packable h =
        (true,
         PackRegion.Packed x y width height packable
           (PackRegion.Empty x (y + Frame.height f) (Frame.width f)
              (height - Frame.height f))
           (PackRegion.Empty (x + Frame.width f) y (width - Frame.width f)
              height),
         h') /\
      (packable < length h ->
       Frame.x (h' !!! packable) = x /\ Frame.y (h' !!! packable) = y)%nat) /\
  (forall x y width height packable (h : heap),
      let f := h !!! packable in
      ~ (Frame.width f <= width /\ Frame.height f <= height) ->
      PackRegion.pack (PackRegion.Empty x y width height) packable h =
        (false, PackRegion.Empty x y width height, h)) /\
  (forall x y width height q sub1 sub2 packable (h : heap),
      let self := PackRegion.Packed x y width height q sub1 sub2 in
      forall ok1 sub1' h1,
        PackRegion.pack sub1 packable h = (ok1, sub1', h1) ->
        (ok1 = true ->
         PackRegion.pack self packable h =
           (true, PackRegion.Packed x y width height q sub1' sub2, h1)) /\
        (ok1 = false ->
         sub1' = sub1 /\ h1 = h /\
         forall ok2 sub2' h2,
           PackRegion.pack sub2 packable h = (ok2, sub2', h2) ->
           PackRegion.pack self packable h =
             (ok2, PackRegion.Packed x y width height q sub1 sub2', h2))).
Proof.
  split; [| split].
  - intros x y w hh p h f Hw Hh h'. split.
    + simpl. fold f.
      destruct (Z.gtb_spec (Frame.width f) w); [lia |].
      destruct (Z.gtb_spec (Frame.height f) hh); [lia |].
      reflexivity.
    + intros Hp. unfold h'. by rewrite list_lookup_total_insert_eq.
  - intros x y w hh p h f Hno. simpl. fold f.
    destruct (Z.gtb_spec (Frame.width f) w); [done |].
    destruct (Z.gtb_spec (Frame.height f) hh); [done |].
    exfalso. apply Hno. lia.
  - intros x y w hh q s1 s2 p h self ok1 s1' h1 E1. split.
    + intros ->. unfold self. simpl. by rewrite E1.
    + intros ->. destruct (pack_false _ _ _ _ _ E1) as [-> ->].
      split; [done |]. split; [done |].
      intros ok2 s2' h2 E2. unfold self. simpl. by rewrite E1, E2.
Qed.

(** ** Containment *)

Lemma pack_nodes_within X Y W H r p h ok r' h' :
  0 <= Frame.width (h !!! p) -> 0 <= Frame.height (h !!! p) ->
  nodes_within X Y W H r ->
  PackRegion.pack r p h = (ok, r', h') ->
  nodes_within X Y W H r' /\
  (ok = true -> (p < length h)%nat -> within (h' !!! p) X Y W H).
Proof.
  intros Hw Hh. revert ok r' h'.
  induction r as [x y w hh | x y w hh q s1 IH1 s2 IH2]; intros ok r' h'.
  - simpl. intros (Hx & Hy & Hxw & Hyh & _).
    destruct (Z.gtb_spec (Frame.width (h !!! p)) w) as [| Hfw]; simpl.
    { intros [= <- <- <-]. simpl. done. }
    destruct (Z.gtb_spec (Frame.height (h !!! p)) hh) as [| Hfh]; simpl.
    { intros [= <- <- <-]. simpl. done. }
    intros [= <- <- <-]. split.
    + simpl. unfold Frame.width, Frame.height in *. simpl. lia.
    + intros _ Hp. rewrite list_lookup_total_insert_eq by done.
      unfold within, Frame.x, Frame.y, Frame.width, Frame.height in *. simpl. lia.
  - simpl. intros (Hx & Hy & Hxw & Hyh & Hs1 & Hs2).
    destruct (PackRegion.pack s1 p h) as [[ok1 s1'] h1] eqn:E1.
    destruct (IH1 _ _ _ Hs1 eq_refl) as [Hs1' Hin1].
    destruct ok1.
    + intros [= <- <- <-]. simpl. auto 10.
    + destruct (pack_false _ _ _ _ _ E1) as [-> ->].
      destruct (PackRegion.pack s2 p h) as [[ok2 s2'] h2] eqn:E2.
      destruct (IH2 _ _ _ Hs2 eq_refl) as [Hs2' Hin2].
      intros [= <- <- <-]. simpl. auto 10.
Qed.

Lemma reachable_inv size r h :
  reachable size r h -> nodes_within 0 0 size size r /\ sizes_ok h.
Proof.
  induction 1 as [h Hs | r h p ok r' h' _ [IHn IHs] E].
  - split; [| done]. simpl. lia.
  - destruct (sizes_ok_lookup h p IHs) as [Hw Hh].
    split.
    + by destruct (pack_nodes_within _ _ _ _ _ _ _ _ _ _ Hw Hh IHn E).
    + by eapply pack_sizes_ok.
Qed.

(** C2.  In a root region at [(0, 0)] of width and height [size], after any
    sequence of [pack] calls, a call that returns [True] for an allocated
    frame leaves the frame inside the square of side [size]. *)
Theorem packed_frame_contained size r h (p : addr) r' h' :
  reachable size r h ->
  (p < length h)%nat ->
  PackRegion.pack r p h = (true, r', h') ->
  let f := h' !!! p in
  0 <= Frame.x f /\ 0 <= Frame.y f /\
  Frame.x f + Frame.width f <= size /\
  Frame.y f + Frame.height f <= size.
Proof.
  intros Hr Hp E.
  destruct (reachable_inv _ _ _ Hr) as [Hn Hs].
  destruct (sizes_ok_lookup h p Hs) as [Hw Hh].
  destruct (pack_nodes_within _ _ _ _ _ _ _ _ _ _ Hw Hh Hn E) as [_ Hin].
  destruct (Hin eq_refl Hp) as (? & ? & ? & ?). simpl. lia.
Qed.

(** ** The region tree and the heap agree *)

Ltac in_packables :=
  simpl in *; rewrite ?elem_of_cons, ?elem_of_app in *; tauto.

Lemma layout_ext h h' r :
  (forall q, q ∈ PackRegion.get_all_packables r -> h' !!! q = h !!! q) ->
  layout h r -> layout h' r.
Proof.
  induction r as [x y w hh | x y w hh q s1 IH1 s2 IH2]; [done |].
  intros Heq. simpl in Heq |- *.
  rewrite (Heq q) by in_packables.
  intros (? & ? & ? & ? & ? & ? & ? & ? & ? & ? & ? & ? & L1 & L2).
  repeat (split; [assumption |]).
  split; [apply IH1 | apply IH2]; try assumption; intros; apply Heq; in_packables.
Qed.

Lemma pack_packables r p h r' h' :
  PackRegion.pack r p h = (true, r', h') ->
  PackRegion.get_all_packables r' ≡ₚ p :: PackRegion.get_all_packables r.
Proof.
  revert h r' h'.
  induction r as [x y w hh | x y w hh q s1 IH1 s2 IH2]; intros h r' h'; simpl.
  - destruct (_ || _); intros [= <- <-]; done.
  - destruct (PackRegion.pack s1 p h) as [[ok1 s1'] h1] eqn:E1.
    destruct ok1.
    + intros [= <- <-]. simpl. rewrite (IH1 _ _ _ E1). simpl. apply perm_swap.
    + destruct (pack_false _ _ _ _ _ E1) as [-> ->].
      destruct (PackRegion.pack s2 p h) as [[ok2 s2'] h2] eqn:E2.
      intros [= -> <- <-]. simpl. rewrite (IH2 _ _ _ E2).
      rewrite <- Permutation_middle. apply perm_swap.
Qed.

Lemma pack_layout r p h ok r' h' :
  0 <= Frame.width (h !!! p) -> 0 <= Frame.height (h !!! p) ->
  (p < length h)%nat ->
  p ∉ PackRegion.get_all_packables r ->
  layout h r ->
  PackRegion.pack r p h = (ok, r', h') ->
  layout h' r'.
Proof.
  intros Hw Hh Hp. revert ok r' h'.
  induction r as [x y w hh | x y w hh q s1 IH1 s2 IH2]; intros ok r' h'.
  - simpl. intros _ _.
    destruct (Z.gtb_spec (Frame.width (h !!! p)) w) as [| Hfw]; simpl.
    { by intros [= <- <- <-]. }
    destruct (Z.gtb_spec (Frame.height (h !!! p)) hh) as [| Hfh]; simpl.
    { by intros [= <- <- <-]. }
    intros [= <- <- <-]. simpl.
    rewrite list_lookup_total_insert_eq by done.
    unfold Frame.x, Frame.y, Frame.width, Frame.height in *. simpl.
    repeat split; lia.
  - simpl. intros Hnot (Hx & Hy & Hfw & Hfh & B1 & B2 & B3 & B4 & B5 & B6 & B7 & B8 & L1 & L2).
    assert (p <> q) as Hpq by in_packables.
    assert (p ∉ PackRegion.get_all_packables s1) as Hn1 by in_packables.
    assert (p ∉ PackRegion.get_all_packables s2) as Hn2 by in_packables.
    specialize (fun ok r' h' => IH1 ok r' h' Hn1 L1).
    specialize (fun ok r' h' => IH2 ok r' h' Hn2 L2).
    destruct (PackRegion.pack s1 p h) as [[ok1 s1'] h1] eqn:E1.
    specialize (IH1 _ _ _ eq_refl).
    destruct (pack_bounds _ _ _ _ _ _ E1) as (C1 & C2 & C3 & C4).
    destruct ok1.
    + intros [= <- <- <-]. simpl.
      rewrite (pack_other _ _ _ _ _ _ q E1) by done.
      rewrite C1, C2, C3, C4.
      repeat (split; [assumption |]).
      apply (layout_ext h); [| assumption].
      intros k Hk. eapply pack_other; [done |]. by intros ->.
    + destruct (pack_false _ _ _ _ _ E1) as [-> ->].
      destruct (PackRegion.pack s2 p h) as [[ok2 s2'] h2] eqn:E2.
      specialize (IH2 _ _ _ eq_refl).
      destruct (pack_bounds _ _ _ _ _ _ E2) as (D1 & D2 & D3 & D4).
      intros [= <- <- <-]. simpl.
      rewrite (pack_other _ _ _ _ _ _ q E2) by done.
      rewrite D1, D2, D3, D4.
      repeat (split; [assumption |]). split; [| assumption].
      apply (layout_ext h); [| assumption].
      intros k Hk. eapply pack_other; [done |]. by intros ->.
Qed.

(** Every frame of a region tree lies in the region and has a size without
    negative part. *)
Lemma layout_within h r q :
  layout h r ->
  q ∈ PackRegion.get_all_packables r ->
  within (h !!! q) (PackRegion.x r) (PackRegion.y r)
    (PackRegion.width r) (PackRegion.height r) /\
  0 <= Frame.width (h !!! q) /\ 0 <= Frame.height (h !!! q).
Proof.
  induction r as [x y w hh | x y w hh p s1 IH1 s2 IH2]; simpl.
  - intros _ Hq. set_solver.
  - intros (Hx & Hy & Hfw & Hfh & B1 & B2 & B3 & B4 & B5 & B6 & B7 & B8 & L1 & L2) Hq.
    apply elem_of_cons in Hq as [-> | Hq]; [| apply elem_of_app in Hq as [Hq | Hq]].
    + unfold within. lia.
    + destruct (IH1 L1 Hq) as [(? & ? & ? & ?) ?]. unfold within. split; [lia | done].
    + destruct (IH2 L2 Hq) as [(? & ? & ? & ?) ?]. unfold within. split; [lia | done].
Qed.

(** Two different frames of a region tree have no point in common. *)
Lemma layout_disjoint h r p q :
  layout h r ->
  p ∈ PackRegion.get_all_packables r ->
  q ∈ PackRegion.get_all_packables r ->
  p <> q ->
  ~ intersect (h !!! p) (h !!! q).
Proof.
  revert p q.
  induction r as [x y w hh | x y w hh k s1 IH1 s2 IH2]; simpl; intros p q.
  - intros _ Hp. set_solver.
  - intros L Hp Hq Hne.
    pose proof L as (Hx & Hy & Hfw & Hfh & B1 & B2 & B3 & B4 & B5 & B6 & B7 & B8 & L1 & L2).
    assert (forall a, a ∈ PackRegion.get_all_packables s1 ->
              within (h !!! a) x (y + Frame.height (h !!! k))
                (Frame.width (h !!! k)) (hh - Frame.height (h !!! k))) as W1.
    { intros a Ha. destruct (layout_within h s1 a L1 Ha) as [Hin _].
      by rewrite B1, B2, B3, B4 in Hin. }
    assert (forall a, a ∈ PackRegion.get_all_packables s2 ->
              within (h !!! a) (x + Frame.width (h !!! k)) y
                (w - Frame.width (h !!! k)) hh) as W2.
    { intros a Ha. destruct (layout_within h s2 a L2 Ha) as [Hin _].
      by rewrite B5, B6, B7, B8 in Hin. }
    apply elem_of_cons in Hp as [-> | Hp]; [| apply elem_of_app in Hp as [Hp | Hp]];
      (apply elem_of_cons in Hq as [-> | Hq]; [| apply elem_of_app in Hq as [Hq | Hq]]);
      try done; try (by apply IH1); try (by apply IH2);
      try (specialize (W1 _ Hp)); try (specialize (W2 _ Hp));
      try (specialize (W1 _ Hq)); try (specialize (W2 _ Hq));
      intros (px & py & [? ?] & [? ?]); unfold within in *; lia.
Qed.

(** ** Packing a sequence of frames *)

Lemma pack_frames_pack_all self frames h :
  TextureAtlas.pack_frames self frames h =
    let '(refused, r', h') := pack_all (TextureAtlas.region self) frames h in
    (outcome refused h', TextureAtlas.mk r' (TextureAtlas.textures self), h').
Proof.
  revert self h. induction frames as [| f rest IH]; intros self h; simpl.
  - by destruct self.
  - destruct (PackRegion.pack (TextureAtlas.region self) f h) as [[ok r1] h1].
    destruct ok; simpl; [| done].
    by rewrite IH.
Qed.

Lemma pack_all_app r l1 l2 h :
  pack_all r (l1 ++ l2) h =
    let '(refused, r1, h1) := pack_all r l1 h in
    match refused with
    | None => pack_all r1 l2 h1
    | Some f => (Some f, r1, h1)
    end.
Proof.
  revert r h. induction l1 as [| f l1 IH]; intros r h; simpl; [done |].
  destruct (PackRegion.pack r f h) as [[ok r1] h1].
  destruct ok; [apply IH | done].
Qed.

Lemma pack_textures_pack_all atlas textures h res atlas' h' :
  pack_textures atlas textures h = (res, atlas', h') ->
  exists refused,
    pack_all (TextureAtlas.region atlas) (frames_of textures) h =
      (refused, TextureAtlas.region atlas', h') /\
    res = outcome refused h'.
Proof.
  revert atlas h. induction textures as [| t ts IH]; intros atlas h; simpl.
  - intros [= <- <- <-]. by exists None.
  - unfold TextureAtlas.pack. rewrite pack_frames_pack_all. simpl.
    unfold frames_of. simpl. fold (frames_of ts). rewrite pack_all_app.
    destruct (pack_all (TextureAtlas.region atlas) (Texture.frames t) h)
      as [[refused r1] h1].
    destruct refused as [f |]; simpl.
    + intros [= <- <- <-]. by exists (Some f).
    + intros E. by apply IH in E.
Qed.

Lemma pack_textures_textures atlas textures h atlas' h' :
  pack_textures atlas textures h = (Ok tt, atlas', h') ->
  TextureAtlas.textures atlas' = TextureAtlas.textures atlas ++ textures.
Proof.
  revert atlas h. induction textures as [| t ts IH]; intros atlas h; simpl.
  - intros [= <- <-]. by rewrite app_nil_r.
  - unfold TextureAtlas.pack. rewrite pack_frames_pack_all. simpl.
    destruct (pack_all (TextureAtlas.region atlas) (Texture.frames t) h)
      as [[refused r1] h1].
    destruct refused as [f |]; simpl; [done |].
    intros E. apply IH in E. rewrite E. simpl. by rewrite <- app_assoc.
Qed.

Lemma pack_all_same_frames r frames h refused r' h' :
  pack_all r frames h = (refused, r', h') -> same_frames h h'.
Proof.
  revert r h. induction frames as [| f rest IH]; intros r h; simpl.
  - intros [= <- <- <-]. apply same_frames_refl.
  - destruct (PackRegion.pack r f h) as [[ok r1] h1] eqn:E.
    apply pack_same_frames in E.
    destruct ok.
    + intros E'. apply IH in E'. by eapply same_frames_trans.
    + by intros [= <- <- <-].
Qed.

Lemma pack_all_length r frames h refused r' h' :
  pack_all r frames h = (refused, r', h') -> length h' = length h.
Proof.
  intros E. apply pack_all_same_frames in E. symmetry. by eapply Forall2_length.
Qed.

(** Only the frames that are packed are written. *)
Lemma pack_all_other r frames h refused r' h' q :
  pack_all r frames h = (refused, r', h') -> q ∉ frames -> h' !!! q = h !!! q.
Proof.
  revert r h. induction frames as [| f rest IH]; intros r h; simpl.
  - by intros [= <- <- <-].
  - intros E Hq. apply not_elem_of_cons in Hq as [Hne Hq].
    destruct (PackRegion.pack r f h) as [[ok r1] h1] eqn:E1.
    pose proof (pack_other _ _ _ _ _ _ q E1 Hne) as H1.
    destruct ok.
    + rewrite <- H1. by eapply IH.
    + by injection E as <- <- <-.
Qed.

Lemma pack_all_bounds r frames h refused r' h' :
  pack_all r frames h = (refused, r', h') ->
  PackRegion.x r' = PackRegion.x r /\ PackRegion.y r' = PackRegion.y r /\
  PackRegion.width r' = PackRegion.width r /\
  PackRegion.height r' = PackRegion.height r.
Proof.
  revert r h. induction frames as [| f rest IH]; intros r h; simpl.
  - by intros [= <- <- <-].
  - destruct (PackRegion.pack r f h) as [[ok r1] h1] eqn:E1.
    destruct (pack_bounds _ _ _ _ _ _ E1) as (B1 & B2 & B3 & B4).
    destruct ok; [| by intros [= <- <- <-]].
    intros E. apply IH in E. rewrite <- B1, <- B2, <- B3, <- B4. exact E.
Qed.

Lemma pack_all_packables r frames h r' h' :
  pack_all r frames h = (None, r', h') ->
  PackRegion.get_all_packables r' ≡ₚ frames ++ PackRegion.get_all_packables r.
Proof.
  revert r h. induction frames as [| f rest IH]; intros r h; simpl.
  - by intros [= <- <-].
  - destruct (PackRegion.pack r f h) as [[ok r1] h1] eqn:E1.
    destruct ok; [| done].
    intros E. rewrite (IH _ _ E), (pack_packables _ _ _ _ _ E1).
    by rewrite <- Permutation_middle.
Qed.

Lemma pack_all_layout r frames h refused r' h' :
  sizes_ok h ->
  Forall (fun f => f < length h)%nat frames ->
  NoDup (frames ++ PackRegion.get_all_packables r) ->
  layout h r ->
  pack_all r frames h = (refused, r', h') ->
  layout h' r'.
Proof.
  revert r h. induction frames as [| f rest IH]; intros r h Hs Hlen Hnd L; simpl.
  - by intros [= <- <- <-].
  - apply Forall_cons in Hlen as [Hf Hlen].
    simpl in Hnd. apply NoDup_cons in Hnd as [Hnot Hnd].
    destruct (sizes_ok_lookup h f Hs) as [Hw Hh].
    destruct (PackRegion.pack r f h) as [[ok r1] h1] eqn:E1.
    assert (layout h1 r1) as L1.
    { eapply pack_layout; [exact Hw | exact Hh | exact Hf | | exact L | exact E1].
      set_solver. }
    destruct ok; [| by intros [= <- <- <-]].
    apply IH; try assumption.
    + by eapply pack_sizes_ok.
    + by rewrite (pack_length _ _ _ _ _ _ E1).
    + rewrite (pack_packables _ _ _ _ _ E1).
      rewrite <- Permutation_middle. by apply NoDup_cons.
Qed.

(** ** Loading and sorting the textures *)

Ltac unfold_result :=
  unfold mbind, mret, result_bind, result_ret in *.

Lemma parse_textures_spec fs values ts h ts' h' :
  parse_textures fs values ts h = Ok (ts', h') ->
  exists imgs,
    Forall2 (fun path img => fs path = Some img) values imgs /\
    h' = h ++ zip_with frame_of_image values imgs /\
    ts' = ts ++ textures_of (length h) values.
Proof.
  revert ts h. induction values as [| path rest IH]; intros ts h; simpl.
  - intros [= <- <-]. exists []. by rewrite !app_nil_r.
  - unfold Frame.init. unfold_result.
    destruct (fs path) as [img |] eqn:Hfs; [| done]. simpl.
    intros E. apply IH in E as (imgs & Hall & -> & ->).
    exists (img :: imgs). split; [by constructor |].
    rewrite <- !app_assoc. simpl. split; [done |].
    f_equal. unfold textures_of. simpl. f_equal.
    + do 2 f_equal. lia.
    + apply imap_ext. intros i x _. simpl.
      rewrite length_app. simpl. do 2 f_equal. lia.
Qed.

Lemma frames_of_textures_of base values :
  frames_of (textures_of base values) = seq base (length values).
Proof.
  revert base. induction values as [| path rest IH]; intros base; [done |].
  unfold textures_of, frames_of in *. simpl.
  rewrite Nat.add_0_r. f_equal.
  rewrite <- (IH (S base)). f_equal. apply imap_ext. intros i x _. simpl.
  do 2 f_equal. lia.
Qed.

Lemma insert_desc_perm {A} (ka : Z * A) l : insert_desc ka l ≡ₚ ka :: l.
Proof.
  induction l as [| kb l IH]; simpl; [done |].
  destruct (kb.1 >? ka.1); [| done].
  rewrite IH. apply perm_swap.
Qed.

Lemma sort_desc_perm {A} (keyed : list (Z * A)) :
  foldr insert_desc [] keyed ≡ₚ keyed.
Proof.
  induction keyed as [| ka l IH]; simpl; [done |].
  by rewrite insert_desc_perm, IH.
Qed.

Lemma mapM_keyed {A} (key : A -> result Z) l keyed :
  mapM (fun a => k ← key a; Ok (k, a)) l = Ok keyed ->
  snd <$> keyed = l /\ Forall (fun ka => key ka.2 = Ok ka.1) keyed.
Proof.
  revert keyed. induction l as [| a l IH]; intros keyed; simpl.
  - by intros [= <-].
  - unfold_result. destruct (key a) as [k |] eqn:Hk; [| done].
    destruct (mapM _ l) as [keyed' |] eqn:Hm; [| done].
    intros [= <-]. destruct (IH _ eq_refl) as [<- Hall].
    split; [done |]. by constructor.
Qed.

Lemma sorted_reverse_perm {A} (key : A -> result Z) l l' :
  sorted_reverse key l = Ok l' -> l' ≡ₚ l.
Proof.
  unfold sorted_reverse. unfold_result.
  destruct (mapM _ l) as [keyed |] eqn:Hm; [| done].
  intros [= <-]. apply mapM_keyed in Hm as [<- _].
  by rewrite sort_desc_perm.
Qed.

Lemma frames_of_perm ts ts' : ts ≡ₚ ts' -> frames_of ts ≡ₚ frames_of ts'.
Proof. intros Hp. unfold frames_of. by rewrite Hp. Qed.

Lemma prepare_spec {K} fs (texture_dict : list (K * string)) textures h size :
  prepare fs texture_dict = Ok (textures, h, size) ->
  exists imgs,
    Forall2 (fun path img => fs path = Some img) (snd <$> texture_dict) imgs /\
    h = zip_with frame_of_image (snd <$> texture_dict) imgs /\
    textures ≡ₚ textures_of 0 (snd <$> texture_dict) /\
    size = (let '(height, width, pixels) := measure h textures in
            initial_size height width pixels).
Proof.
  unfold prepare. unfold_result.
  destruct (parse_textures fs (snd <$> texture_dict) [] []) as [[ts h0] |] eqn:Ep;
    [| done].
  destruct (sorted_reverse (perimeter_key h0) ts) as [sorted |] eqn:Es; [| done].
  destruct (measure h0 sorted) as [[height width] pixels] eqn:Em.
  destruct (float_limit <=? pixels); [done |].
  intros [= <- <- <-].
  apply parse_textures_spec in Ep as (imgs & Hall & -> & ->).
  apply sorted_reverse_perm in Es.
  exists imgs. simpl in *. rewrite Em. auto.
Qed.

Lemma prepare_frames {K} fs (texture_dict : list (K * string)) textures h size :
  prepare fs texture_dict = Ok (textures, h, size) ->
  length h = length texture_dict /\
  frames_of textures ≡ₚ seq 0 (length h).
Proof.
  intros E. apply prepare_spec in E as (imgs & Hall & -> & Hperm & _).
  apply Forall2_length in Hall as Hlen.
  rewrite length_zip_with, <- Hlen, Nat.min_id, length_fmap.
  split; [done |].
  rewrite (frames_of_perm _ _ Hperm), frames_of_textures_of.
  by rewrite length_fmap.
Qed.

Lemma prepare_sizes_ok {K} fs (texture_dict : list (K * string)) textures h size :
  decodes_ok fs ->
  prepare fs texture_dict = Ok (textures, h, size) ->
  sizes_ok h.
Proof.
  intros Hfs E. apply prepare_spec in E as (imgs & Hall & -> & _).
  apply Forall_lookup. intros i f Hf.
  apply lookup_zip_with_Some in Hf as (path & img & -> & Hp & Hi).
  destruct (Forall2_lookup_l _ _ _ _ _ Hall Hp) as (img' & Hi' & Himg).
  assert (img' = img) as -> by congruence.
  exact (Hfs _ _ Himg).
Qed.

(** ** The retry loop *)

Lemma attempt_same_frames size textures h res atlas h' :
  attempt size textures h = (res, atlas, h') -> same_frames h h'.
Proof.
  intros E. apply pack_textures_pack_all in E as (refused & E & _).
  by eapply pack_all_same_frames.
Qed.

(** The loop ends on a turn that packs every texture. *)
Lemma pack_loop_success fuel size textures h atlas h' :
  pack_loop fuel size textures h = Some (Ok (atlas, h')) ->
  exists (turns : nat) h1,
    same_frames h h1 /\
    attempt (size * 2 ^ Z.of_nat turns) textures h1 = (Ok tt, atlas, h').
Proof.
  revert size h. induction fuel as [| fuel IH]; intros size h; simpl; [done |].
  destruct (attempt size textures h) as [[res a1] h1] eqn:E.
  destruct res as [[] | e].
  - intros [= <- <-]. exists 0%nat, h. split; [apply same_frames_refl |].
    by rewrite Z.mul_1_r.
  - destruct e; try done.
    intros E'. apply IH in E' as (turns & h2 & Hsame & E').
    exists (S turns), h2. split.
    + eapply same_frames_trans; [| exact Hsame]. by eapply attempt_same_frames.
    + rewrite Nat2Z.inj_succ, Z.pow_succ_r by lia.
      by replace (size * (2 * 2 ^ Z.of_nat turns)) with (size * 2 * 2 ^ Z.of_nat turns) by lia.
Qed.

(** A turn that packs every texture leaves a tree that agrees with the heap
    and that holds every frame. *)
Lemma attempt_success size textures h atlas h' :
  sizes_ok h ->
  Forall (fun f => f < length h)%nat (frames_of textures) ->
  NoDup (frames_of textures) ->
  attempt size textures h = (Ok tt, atlas, h') ->
  layout h' (TextureAtlas.region atlas) /\
  PackRegion.get_all_packables (TextureAtlas.region atlas) ≡ₚ frames_of textures /\
  TextureAtlas.textures atlas = textures /\
  TextureAtlas.width atlas = size /\ TextureAtlas.height atlas = size.
Proof.
  intros Hs Hlen Hnd E. unfold attempt in E.
  pose proof (pack_textures_textures _ _ _ _ _ E) as Ht.
  apply pack_textures_pack_all in E as (refused & E & Hres).
  destruct refused; [done |]. simpl in E.
  split; [| split; [| split; [done |]]].
  - eapply pack_all_layout; [exact Hs | exact Hlen | | | exact E]; simpl; [| done].
    by rewrite app_nil_r.
  - rewrite (pack_all_packables _ _ _ _ _ E). simpl. by rewrite app_nil_r.
  - destruct (pack_all_bounds _ _ _ _ _ _ E) as (_ & _ & Hw & Hh).
    unfold TextureAtlas.width, TextureAtlas.height. by rewrite Hw, Hh.
Qed.

Lemma same_frames_length h h' : same_frames h h' -> length h' = length h.
Proof. intros Hs. symmetry. by eapply Forall2_length. Qed.

(** What a build that ends leaves behind. *)
Lemma build_success {K} fs (texture_dict : list (K * string)) fuel atlas h :
  decodes_ok fs ->
  build fs texture_dict fuel = Some (Ok (atlas, h)) ->
  exists textures h0 size0 (turns : nat),
    prepare fs texture_dict = Ok (textures, h0, size0) /\
    same_frames h0 h /\
    layout h (TextureAtlas.region atlas) /\
    PackRegion.get_all_packables (TextureAtlas.region atlas) ≡ₚ frames_of textures /\
    TextureAtlas.textures atlas = textures /\
    TextureAtlas.width atlas = size0 * 2 ^ Z.of_nat turns /\
    TextureAtlas.height atlas = size0 * 2 ^ Z.of_nat turns.
Proof.
  intros Hfs. unfold build.
  destruct (prepare fs texture_dict) as [[[textures h0] size0] |] eqn:Ep; [| done].
  intros E. apply pack_loop_success in E as (turns & h1 & Hsame & E).
  destruct (prepare_frames _ _ _ _ _ Ep) as [Hlen Hperm].
  pose proof (prepare_sizes_ok _ _ _ _ _ Hfs Ep) as Hs.
  exists textures, h0, size0, turns. split; [done |].
  split.
  { eapply same_frames_trans; [exact Hsame |]. by eapply attempt_same_frames. }
  eapply attempt_success; [| | | exact E].
  - by eapply sizes_ok_same.
  - rewrite (same_frames_length _ _ Hsame).
    apply Forall_forall. intros f Hf. rewrite Hperm in Hf.
    apply elem_of_seq in Hf. lia.
  - rewrite Hperm. apply NoDup_seq.
Qed.

(** ** No overlap *)

(** C1.  In the atlas that a build ends with, the packed rectangles are the
    frames of the textures, and the boxes [[x, x+width) x [y, y+height)] of
    two different ones have no point in common. *)
Theorem no_overlap {K} fs (texture_dict : list (K * string)) fuel atlas h :
  decodes_ok fs ->
  build fs texture_dict fuel = Some (Ok (atlas, h)) ->
  PackRegion.get_all_packables (TextureAtlas.region atlas)
    ≡ₚ frames_of (TextureAtlas.textures atlas) /\
  forall p q : addr,
    p ∈ frames_of (TextureAtlas.textures atlas) ->
    q ∈ frames_of (TextureAtlas.textures atlas) ->
    p <> q ->
    ~ intersect (h !!! p) (h !!! q).
Proof.
  intros Hfs E.
  apply build_success in E as (ts & h0 & s0 & n & _ & _ & L & Hperm & -> & _);
    [| done].
  split; [done |].
  intros p q Hp Hq. rewrite <- Hperm in Hp, Hq.
  by apply (layout_disjoint h (TextureAtlas.region atlas)).
Qed.

(** ** The first candidate size *)

Lemma bit_length_nonneg n : 0 <= bit_length n.
Proof. destruct n; simpl; lia. Qed.

(** A positive number has as many bits as its binary logarithm says. *)
Lemma bit_length_bounds m :
  0 < m -> 2 ^ (bit_length m - 1) <= m < 2 ^ bit_length m.
Proof.
  destruct m as [| p | p]; try lia. intros _. simpl.
  pose proof (Pos.size_gt p) as Hgt. pose proof (Pos.size_le p) as Hle.
  apply Pos2Z.pos_lt_pos in Hgt. apply Pos2Z.pos_le_pos in Hle.
  rewrite Pos2Z.inj_pow in Hgt, Hle.
  replace (2 ^ Z.pos (Pos.size p)) with (2 * 2 ^ (Z.pos (Pos.size p) - 1)) in Hle.
  - lia.
  - rewrite <- Z.pow_succ_r by lia. f_equal. lia.
Qed.

(** *** The square root in floats *)

Lemma pow_4_square k : 0 <= k -> 4 ^ k = 2 ^ k * 2 ^ k.
Proof. intros Hk. change 4 with (2 * 2). by rewrite Z.pow_mul_l. Qed.

(** The float nearest to the root is one of the two floats next to it. *)
Lemma nearest_sqrt_faithful x : 0 <= x -> faithful_sqrt x (nearest_sqrt x).
Proof.
  intros Hx. unfold faithful_sqrt, nearest_sqrt, sqrt_is_float.
  pose proof (Z.sqrt_nonneg (x * 4 ^ (- sqrt_exponent x))) as Hf1.
  pose proof (Z.sqrt_nonneg (x / 4 ^ sqrt_exponent x)) as Hf2.
  unfold sqrt_floor.
  destruct (Z.leb_spec (sqrt_exponent x) 0) as [He | He]; cbn [fst snd].
  - split; [done |].
    destruct (Z.ltb_spec (Z.sqrt (x * 4 ^ (- sqrt_exponent x))
                          * Z.sqrt (x * 4 ^ (- sqrt_exponent x))
                          + Z.sqrt (x * 4 ^ (- sqrt_exponent x)))
                (x * 4 ^ (- sqrt_exponent x))) as [Hup | Hdown];
      [right | by left].
    split; [done |]. apply Z.eqb_neq. lia.
  - split; [done |].
    set (f := Z.sqrt (x / 4 ^ sqrt_exponent x)) in *.
    destruct (Z.ltb_spec ((2 * f + 1) * (2 * f + 1) * 4 ^ (sqrt_exponent x - 1)) x)
      as [Hup | Hdown]; [right | by left].
    split; [done |]. apply Z.eqb_neq.
    replace (4 ^ sqrt_exponent x) with (4 * 4 ^ (sqrt_exponent x - 1)).
    + pose proof (Z.pow_pos_nonneg 4 (sqrt_exponent x - 1)). nia.
    + rewrite <- Z.pow_succ_r by lia. f_equal. lia.
Qed.

(** An integer of at most 53 bits is a float. *)
Lemma float_of_int_exact n : 0 <= n < 2 ^ 53 -> float_of_int n = n.
Proof.
  intros Hn. unfold float_of_int.
  destruct (Z.leb_spec (bit_length n - 53) 0) as [_ | Hb]; [done |].
  pose proof (bit_length_bounds n) as [Hlo _].
  { destruct n; [done | lia | lia]. }
  assert (2 ^ 53 <= 2 ^ (bit_length n - 1)) by (apply Z.pow_le_mono_r; lia).
  lia.
Qed.

(** Up to an area of [2^52] the float computation gives the ceiling of the
    square root, whichever of the two floats next to the root [pow]
    returns. *)
Lemma ceil_sqrt_spec n : 0 <= n <= 2 ^ 52 -> is_ceil_sqrt n (ceil_sqrt n).
Proof.
  intros Hn. unfold ceil_sqrt. rewrite float_of_int_exact by lia.
  pose proof (pow_half_faithful n (proj1 Hn)) as [He Hm].
  destruct (pow_half n) as [m e]. cbn [fst snd] in He, Hm. subst e.
  pose proof (Z.sqrt_spec n (proj1 Hn)) as [Hlo Hhi].
  pose proof (Z.sqrt_nonneg n) as Hr.
  unfold sqrt_is_float, sqrt_floor, sqrt_exponent in *.
  set (r := Z.sqrt n) in *.
  assert (r <= 2 ^ 26) as Hr26 by (change (2 ^ 52) with (2 ^ 26 * 2 ^ 26) in Hn; nia).
  assert (bit_length r <= 27 /\ r < 2 ^ bit_length r) as [Hb Hrb].
  { destruct (decide (r = 0)) as [-> | Hr0]; [simpl; lia |].
    pose proof (bit_length_bounds r) as [Hb1 Hb2]; [lia |]. split; [| done].
    destruct (Z.le_gt_cases (bit_length r) 27) as [| Hgt]; [done |].
    assert (2 ^ 27 <= 2 ^ (bit_length r - 1)) by (apply Z.pow_le_mono_r; lia).
    lia. }
  pose proof (bit_length_nonneg r) as Hb0.
  destruct (Z.leb_spec (bit_length r - 53) 0) as [_ | ?]; [| lia].
  replace (- (bit_length r - 53)) with (53 - bit_length r) in * by lia.
  rewrite pow_4_square in Hm by lia.
  assert (0 < 2 ^ (53 - bit_length r)) as HE by (apply Z.pow_pos_nonneg; lia).
  unfold float_ceil.
  destruct (Z.leb_spec 0 (bit_length r - 53)) as [? | _]; [lia |].
  replace (- (bit_length r - 53)) with (53 - bit_length r) by lia.
  set (E := 2 ^ (53 - bit_length r)) in *.
  destruct (decide (r * r = n)) as [Hsq | Hnsq].
  - (* the area is a square: the root is a float *)
    assert (n * (E * E) = (r * E) * (r * E)) as Hv by lia.
    rewrite Hv, Z.sqrt_square in Hm by nia.
    rewrite Z.eqb_refl in Hm.
    assert (m = r * E) as -> by (destruct Hm as [? | [_ ?]]; [done | done]).
    rewrite <- Z.mul_opp_l, Z.div_mul by lia.
    repeat split; [lia | lia |]. intros j Hj Hle. nia.
  - (* between two squares: both floats next to the root lie above [r] *)
    assert (r < 2 ^ 26) as Hr26' by (change (2 ^ 52) with (2 ^ 26 * 2 ^ 26) in Hn; nia).
    assert (bit_length r <= 26) as Hb26.
    { destruct (decide (r = 0)) as [Hr0 | Hr0]; [rewrite Hr0 in *; lia |].
      pose proof (bit_length_bounds r) as [Hb1 _]; [lia |].
      destruct (Z.le_gt_cases (bit_length r) 26) as [| Hgt]; [done |].
      assert (2 ^ 26 <= 2 ^ (bit_length r - 1)) by (apply Z.pow_le_mono_r; lia).
      lia. }
    assert (2 * r + 1 <= E) as HrE.
    { assert (2 ^ (bit_length r + 1) <= E)
        by (apply Z.pow_le_mono_r; lia).
      rewrite Z.pow_add_r in * by lia. lia. }
    set (f := Z.sqrt (n * (E * E))) in *.
    assert (r * E + 1 <= f) as Hlow.
    { rewrite <- (Z.sqrt_square (r * E + 1)) by nia.
      apply Z.sqrt_le_mono. nia. }
    assert (f + 1 <= (r + 1) * E) as Hupp.
    { pose proof (Z.sqrt_spec (n * (E * E))) as [Hf _]; [nia |].
      fold f in Hf. nia. }
    assert (r * E < m <= (r + 1) * E) as Hmb
      by (destruct Hm as [-> | [-> _]]; lia).
    assert (- m / E = - (r + 1)) as ->.
    { symmetry. apply (Z.div_unique _ _ _ ((r + 1) * E - m)); lia. }
    repeat split; [lia | lia |]. intros j Hj Hle. nia.
Qed.

Lemma ceil_sqrt_0 : ceil_sqrt 0 = 0.
Proof.
  destruct (ceil_sqrt_spec 0) as (H0 & _ & Hmin); [lia |].
  specialize (Hmin 0). lia.
Qed.

(** An area of [2^54 + 1] is the float [2^54], whose root [2^27] is a
    float: [pow] returns it, whatever it does elsewhere. *)
Lemma ceil_sqrt_beyond : ceil_sqrt (2 ^ 54 + 1) = 2 ^ 27.
Proof.
  unfold ceil_sqrt.
  replace (float_of_int (2 ^ 54 + 1)) with (2 ^ 54) by (vm_compute; reflexivity).
  pose proof (pow_half_faithful (2 ^ 54)) as [He Hm]; [by vm_compute |].
  destruct (pow_half (2 ^ 54)) as [m e]. cbn [fst snd] in He, Hm.
  replace (sqrt_exponent (2 ^ 54)) with (-25) in He by (vm_compute; reflexivity).
  replace (sqrt_floor (2 ^ 54)) with (2 ^ 52) in Hm by (vm_compute; reflexivity).
  replace (sqrt_is_float (2 ^ 54)) with true in Hm by (vm_compute; reflexivity).
  destruct Hm as [-> | [_ ?]]; [| done]. subst e. vm_compute. reflexivity.
Qed.

Lemma next_power_of_two_spec n :
  1 <= n -> is_next_power_of_two n (Z.shiftl 1 (bit_length (n - 1))).
Proof.
  intros Hn. pose proof (bit_length_nonneg (n - 1)) as Hb.
  rewrite Z.shiftl_1_l.
  split; [by exists (bit_length (n - 1)) |].
  destruct (decide (n = 1)) as [-> | Hne].
  - simpl. split; [lia |]. intros e He _.
    pose proof (Z.pow_pos_nonneg 2 e). lia.
  - pose proof (bit_length_bounds (n - 1)) as [Hlo Hhi]; [lia |].
    split; [lia |]. intros e He Hle.
    destruct (Z.le_gt_cases (bit_length (n - 1)) e) as [Hbe | Heb].
    + by apply Z.pow_le_mono_r.
    + assert (2 ^ e <= 2 ^ (bit_length (n - 1) - 1))
        by (apply Z.pow_le_mono_r; lia).
      lia.
Qed.

(** The loops of lines 255 to 262 go through the frames one by one. *)
Lemma measure_frames h textures :
  measure h textures =
    foldl (fun '(height, width, pixels) f =>
             (Z.max (Frame.height (h !!! f)) height,
              Z.max (Frame.width (h !!! f)) width,
              pixels + Frame.height (h !!! f) * Frame.width (h !!! f)))
          (0, 0, 0) (frames_of textures).
Proof.
  unfold measure. generalize (0, 0, 0).
  induction textures as [| t ts IH]; intros acc; [done |].
  unfold frames_of. simpl. rewrite foldl_app. apply IH.
Qed.

Lemma measure_fold (g1 g2 : addr -> Z) frames a b c :
  0 <= a -> 0 <= b ->
  foldl (fun '(height, width, pixels) f =>
           (Z.max (g1 f) height, Z.max (g2 f) width, pixels + g1 f * g2 f))
        (a, b, c) frames =
    (Z.max (foldr Z.max 0 (g1 <$> frames)) a,
     Z.max (foldr Z.max 0 (g2 <$> frames)) b,
     c + foldr Z.add 0 ((fun f => g1 f * g2 f) <$> frames)).
Proof.
  revert a b c. induction frames as [| f rest IH]; intros a b c Ha Hb.
  - simpl. f_equal; [f_equal |]; lia.
  - cbn [foldl fmap list_fmap foldr]. rewrite IH by lia.
    f_equal; [f_equal |]; lia.
Qed.

Lemma foldr_max_nonneg (l : list Z) : 0 <= foldr Z.max 0 l.
Proof. induction l; simpl; lia. Qed.

Lemma foldr_max_perm (l l' : list Z) :
  l ≡ₚ l' -> foldr Z.max 0 l = foldr Z.max 0 l'.
Proof. induction 1; simpl; lia. Qed.

Lemma foldr_add_perm (l l' : list Z) :
  l ≡ₚ l' -> foldr Z.add 0 l = foldr Z.add 0 l'.
Proof. induction 1; simpl; lia. Qed.

Lemma fmap_lookup_seq {A} `{!Inhabited A} (g : A -> Z) (pre l : list A) :
  (fun i => g ((pre ++ l) !!! i)) <$> seq (length pre) (length l) = g <$> l.
Proof.
  revert pre. induction l as [| a l IH]; intros pre; simpl; [done |].
  rewrite list_lookup_total_middle by done. f_equal.
  specialize (IH (pre ++ [a])). rewrite length_app, <- app_assoc in IH.
  simpl in IH. by rewrite Nat.add_1_r in IH.
Qed.

(** After the loops, [height], [width] and [pixels] are the largest height,
    the largest width and the sum of the areas of all the frames. *)
Lemma measure_spec h textures :
  frames_of textures ≡ₚ seq 0 (length h) ->
  measure h textures =
    (max_frame_height h, max_frame_width h, total_pixel_area h).
Proof.
  intros Hperm. rewrite measure_frames.
  rewrite (measure_fold (fun f => Frame.height (h !!! f))
             (fun f => Frame.width (h !!! f))) by done.
  unfold max_frame_height, max_frame_width, total_pixel_area.
  rewrite (foldr_max_perm _ _ (fmap_Permutation _ _ _ Hperm)).
  rewrite (foldr_max_perm _ _ (fmap_Permutation (fun f => Frame.width (h !!! f)) _ _ Hperm)).
  rewrite (foldr_add_perm _ _ (fmap_Permutation _ _ _ Hperm)).
  rewrite (fmap_lookup_seq Frame.height [] h).
  rewrite (fmap_lookup_seq Frame.width [] h).
  rewrite (fmap_lookup_seq (fun f => Frame.height f * Frame.width f) [] h).
  rewrite !Z.max_l by apply foldr_max_nonneg. by rewrite Z.add_0_l.
Qed.

Lemma foldr_max_is_max (l : list Z) :
  l <> [] -> Forall (fun x => 0 < x) l -> is_max_of l (foldr Z.max 0 l).
Proof.
  intros Hne Hpos. induction Hpos as [| x l Hx Hpos IH]; [done |]. simpl.
  destruct l as [| y l].
  - simpl. rewrite Z.max_l by lia. split; [set_solver |].
    intros z Hz. apply list_elem_of_singleton in Hz. lia.
  - destruct IH as [Hin Hmax]; [done |].
    split.
    + destruct (Z.max_spec x (foldr Z.max 0 (y :: l))) as [[_ ->] | [_ ->]].
      * by apply elem_of_cons; right.
      * apply elem_of_cons; by left.
    + intros z Hz. apply elem_of_cons in Hz as [-> | Hz]; [lia |].
      specialize (Hmax z Hz). lia.
Qed.

Lemma total_pixel_area_pos h :
  h <> [] ->
  Forall (fun f => 0 < Frame.width f /\ 0 < Frame.height f) h ->
  1 <= total_pixel_area h.
Proof.
  intros Hne Hpos. unfold total_pixel_area.
  assert (0 <= foldr Z.add 0 ((fun f => Frame.height f * Frame.width f) <$> h)
          /\ (h <> [] ->
              1 <= foldr Z.add 0 ((fun f => Frame.height f * Frame.width f) <$> h)))
    as [_ H]; [| by apply H].
  clear Hne. induction Hpos as [| f l [Hw Hh] _ [IH0 _]].
  - simpl. split; [lia | done].
  - rewrite fmap_cons. cbn [foldr]. split; [nia |]. intros _. nia.
Qed.

Lemma prepare_size {K} fs (texture_dict : list (K * string)) textures h size :
  prepare fs texture_dict = Ok (textures, h, size) ->
  size = initial_size (max_frame_height h) (max_frame_width h)
           (total_pixel_area h).
Proof.
  intros E. destruct (prepare_frames _ _ _ _ _ E) as [_ Hperm].
  apply prepare_spec in E as (_ & _ & _ & _ & ->).
  by rewrite (measure_spec _ _ Hperm).
Qed.

(** C7, as the code has it.  For an input with at least one frame, all
    frames having a positive width and height, and a total pixel area of at
    most [2^52], the first candidate size is the largest of the largest
    frame height, the largest frame width and the smallest power of two that
    is at least the ceiling of the square root of the total pixel area; the
    expression [1 << (n - 1).bit_length()] is that power of two.  Beyond
    that area the float square root is no longer the exact one. *)
Theorem first_candidate_size {K} fs (texture_dict : list (K * string))
    textures h size :
  prepare fs texture_dict = Ok (textures, h, size) ->
  texture_dict <> [] ->
  Forall (fun f => 0 < Frame.width f /\ 0 < Frame.height f) h ->
  total_pixel_area h <= 2 ^ 52 ->
  exists n p,
    is_max_of (Frame.height <$> h) (max_frame_height h) /\
    is_max_of (Frame.width <$> h) (max_frame_width h) /\
    is_ceil_sqrt (total_pixel_area h) n /\
    n = ceil_sqrt (total_pixel_area h) /\
    is_next_power_of_two n p /\
    p = Z.shiftl 1 (bit_length (n - 1)) /\
    size = Z.max (max_frame_height h) (Z.max (max_frame_width h) p).
Proof.
  intros E Hne Hpos Hsmall.
  destruct (prepare_frames _ _ _ _ _ E) as [Hlen _].
  assert (h <> []) as Hh.
  { intros ->. destruct texture_dict; [done | discriminate]. }
  pose proof (total_pixel_area_pos h Hh Hpos) as Harea.
  pose proof (ceil_sqrt_spec (total_pixel_area h)) as Hceil.
  specialize (Hceil ltac:(lia)).
  exists (ceil_sqrt (total_pixel_area h)),
    (Z.shiftl 1 (bit_length (ceil_sqrt (total_pixel_area h) - 1))).
  split; [| split; [| split; [done | split; [done | split; [| split; [done |]]]]]].
  - apply foldr_max_is_max.
    + by destruct h.
    + apply Forall_fmap. eapply Forall_impl; [exact Hpos |]. simpl. tauto.
  - apply foldr_max_is_max.
    + by destruct h.
    + apply Forall_fmap. eapply Forall_impl; [exact Hpos |]. simpl. tauto.
  - apply next_power_of_two_spec.
    destruct Hceil as (H0 & Hle & _). nia.
  - by apply prepare_size in E.
Qed.

(** ** The empty input *)

(** C10.  For the empty mapping nothing is raised: the power-of-two term is
    [1 << (-1).bit_length() = 2], so the first candidate size is 2; the
    first turn of the loop packs the empty list of textures; the result is
    a buffer of 16 zero bytes, an empty table, and width and height 2. *)
Theorem empty_input {K} (fs : filesystem) :
  bit_length (ceil_sqrt 0 - 1) = 1 /\
  Z.shiftl 1 (bit_length (-1)) = 2 /\
  prepare fs (@nil (K * string)) = Ok ([], [], 2) /\
  attempt 2 [] [] = (Ok tt, TextureAtlas.init 2 2, []) /\
  forall fuel,
    create_atlas fs (@nil (K * string)) (S fuel) =
      Some (Ok (replicate 16 x00, [], 2, 2)).
Proof.
  assert (prepare fs (@nil (K * string)) = Ok ([], [], 2)) as Hp.
  { unfold prepare, initial_size. cbn. by rewrite ceil_sqrt_0. }
  split; [by rewrite ceil_sqrt_0 |].
  repeat split; [done |].
  intros fuel. unfold create_atlas, build. by rewrite Hp.
Qed.

(** ** [TextureAtlas.pack] *)

Lemma pack_all_refused r frames h f r' h' :
  pack_all r frames h = (Some f, r', h') ->
  exists pre post,
    frames = pre ++ f :: post /\
    pack_all r pre h = (None, r', h') /\
    PackRegion.pack r' f h' = (false, r', h').
Proof.
  revert r h. induction frames as [| g rest IH]; intros r h; simpl; [done |].
  destruct (PackRegion.pack r g h) as [[ok r1] h1] eqn:E1.
  destruct ok.
  - intros E. apply IH in E as (pre & post & -> & E & Hf).
    exists (g :: pre), post. simpl. by rewrite E1.
  - intros [= <- <- <-]. destruct (pack_false _ _ _ _ _ E1) as [-> ->].
    by exists [], rest.
Qed.

(** C5, as the code has it.  [TextureAtlas.pack] appends the texture to the
    packed sequence before it packs any frame, so the texture is in the
    sequence whether the call returns or raises.  The call returns when
    every frame was packed.  It raises [AtlasTooSmall] at the first frame
    that [PackRegion.pack] refuses: the frames before it are packed, the
    frames after it are not tried. *)
Theorem pack_appends_first self texture h res self' h' :
  TextureAtlas.pack self texture h = (res, self', h') ->
  TextureAtlas.textures self' = TextureAtlas.textures self ++ [texture] /\
  ((res = Ok tt /\
    PackRegion.get_all_packables (TextureAtlas.region self') ≡ₚ
      Texture.frames texture ++
      PackRegion.get_all_packables (TextureAtlas.region self)) \/
   (exists pre f post,
      Texture.frames texture = pre ++ f :: post /\
      res = Raise (AtlasTooSmall
                     (String.append "Failed to pack frame "
                        (Frame.filename (h' !!! f)))) /\
      PackRegion.get_all_packables (TextureAtlas.region self') ≡ₚ
        pre ++ PackRegion.get_all_packables (TextureAtlas.region self) /\
      PackRegion.pack (TextureAtlas.region self') f h' =
        (false, TextureAtlas.region self', h'))).
Proof.
  unfold TextureAtlas.pack. rewrite pack_frames_pack_all. simpl.
  destruct (pack_all (TextureAtlas.region self) (Texture.frames texture) h)
    as [[refused r1] h1] eqn:E.
  intros [= <- <- <-]. simpl. split; [done |].
  destruct refused as [f |].
  - right. apply pack_all_refused in E as (pre & post & Hfr & E & Hf).
    exists pre, f, post. repeat split; try done.
    by apply pack_all_packables in E.
  - left. split; [done |]. by apply pack_all_packables in E.
Qed.

(** ** [TextureAtlas.to_dict] *)

Lemma float_limit_gt_1 : 1 < float_limit.
Proof. reflexivity. Qed.

Lemma truediv_ok a b q :
  truediv a b = Ok q ->
  b <> 0 /\ too_large a b = false /\ q = (inject_Z a / inject_Z b)%Q.
Proof.
  unfold truediv.
  destruct (Z.eqb_spec b 0); [done |].
  destruct (too_large a b); [done |].
  by intros [= <-].
Qed.

Lemma truediv_fits a b :
  b <> 0 -> too_large a b = false ->
  truediv a b = Ok (inject_Z a / inject_Z b)%Q.
Proof.
  unfold truediv. intros Hb ->.
  by destruct (Z.eqb_spec b 0).
Qed.

(** A quotient of at most one is not too large. *)
Lemma fits_unit a b : 0 <= a <= b -> 0 < b -> too_large a b = false.
Proof.
  intros Ha Hb. unfold too_large. apply Z.leb_gt.
  pose proof float_limit_gt_1. nia.
Qed.

Lemma bounds_ok self h tex b :
  TextureAtlas.bounds self h tex = Ok b ->
  exists frame0 rest,
    Texture.frames tex = frame0 :: rest /\
    TextureAtlas.width self <> 0 /\ TextureAtlas.height self <> 0 /\
    b = uv_formula (h !!! frame0) (TextureAtlas.width self)
          (TextureAtlas.height self).
Proof.
  unfold TextureAtlas.bounds.
  destruct (Texture.frames tex) as [| frame0 rest]; [done |].
  unfold_result.
  destruct (truediv (Frame.x _) _) as [u0 |] eqn:E0; [| done].
  destruct (truediv (Frame.y _) _) as [v0 |] eqn:E1; [| done].
  destruct (truediv (_ + Frame.width _) _) as [u1 |] eqn:E2; [| done].
  destruct (truediv (_ + Z.min _ _) _) as [v1 |] eqn:E3; [| done].
  intros [= <-].
  apply truediv_ok in E0 as (Hw & _ & ->). apply truediv_ok in E1 as (Hh & _ & ->).
  apply truediv_ok in E2 as (_ & _ & ->). apply truediv_ok in E3 as (_ & _ & ->).
  by exists frame0, rest.
Qed.

Lemma bounds_total self h tex frame0 rest :
  Texture.frames tex = frame0 :: rest ->
  TextureAtlas.width self <> 0 -> TextureAtlas.height self <> 0 ->
  too_large (Frame.x (h !!! frame0)) (TextureAtlas.width self) = false ->
  too_large (Frame.y (h !!! frame0)) (TextureAtlas.height self) = false ->
  too_large (Frame.x (h !!! frame0) + Frame.width (h !!! frame0))
    (TextureAtlas.width self) = false ->
  too_large (Frame.y (h !!! frame0)
             + Z.min (Frame.height (h !!! frame0)) (Frame.width (h !!! frame0)))
    (TextureAtlas.height self) = false ->
  TextureAtlas.bounds self h tex =
    Ok (uv_formula (h !!! frame0) (TextureAtlas.width self)
          (TextureAtlas.height self)).
Proof.
  unfold TextureAtlas.bounds. intros -> Hw Hh F0 F1 F2 F3.
  unfold_result. by rewrite !truediv_fits.
Qed.

Section ToDict.
Variable self : TextureAtlas.t.
Variable h : heap.

Let step (acc : result (gmap string uv)) (tex : Texture.t) :=
  d ← acc;
  b ← TextureAtlas.bounds self h tex;
  Ok (<[Texture.name tex := b]> d).

Lemma step_ok d0 t :
  step (Ok d0) t =
    match TextureAtlas.bounds self h t with
    | Ok b => Ok (<[Texture.name t := b]> d0)
    | Raise e => Raise e
    end.
Proof. reflexivity. Qed.

Lemma to_dict_raise e l : foldl step (Raise e) l = Raise e.
Proof. induction l as [| t l IH]; simpl; [done | apply IH]. Qed.

Lemma to_dict_cons d0 t l d :
  foldl step (Ok d0) (t :: l) = Ok d ->
  exists b,
    TextureAtlas.bounds self h t = Ok b /\
    foldl step (Ok (<[Texture.name t := b]> d0)) l = Ok d.
Proof.
  cbn [foldl]. rewrite step_ok.
  destruct (TextureAtlas.bounds self h t) as [b | e].
  - intros E. by exists b.
  - by rewrite to_dict_raise.
Qed.

(** Textures with another name leave an entry as it is. *)
Lemma to_dict_other d0 l d key :
  foldl step (Ok d0) l = Ok d ->
  Forall (fun t => Texture.name t <> key) l ->
  d !! key = d0 !! key.
Proof.
  revert d0. induction l as [| t l IH]; intros d0.
  - by intros [= <-].
  - intros E Hall. apply Forall_cons in Hall as [Ht Hall].
    apply to_dict_cons in E as (b & _ & E).
    rewrite (IH _ E Hall). by rewrite lookup_insert_ne.
Qed.

(** The entry of a name is that of the last texture with the name. *)
Lemma to_dict_last d0 pre tex post d :
  foldl step (Ok d0) (pre ++ tex :: post) = Ok d ->
  Forall (fun t => Texture.name t <> Texture.name tex) post ->
  exists b, TextureAtlas.bounds self h tex = Ok b /\
            d !! Texture.name tex = Some b.
Proof.
  revert d0. induction pre as [| t pre IH]; intros d0 E Hall.
  - apply to_dict_cons in E as (b & Hb & E). exists b. split; [done |].
    rewrite (to_dict_other _ _ _ _ E Hall). by rewrite lookup_insert_eq.
  - apply to_dict_cons in E as (b & _ & E). by eapply IH.
Qed.

(** Every name in the table is the name of a texture, and the table has
    an entry for every texture. *)
Lemma to_dict_total d0 l :
  Forall (fun t => exists b, TextureAtlas.bounds self h t = Ok b) l ->
  exists d, foldl step (Ok d0) l = Ok d /\
            Forall (fun t => is_Some (d !! Texture.name t)) l.
Proof.
  intros Hall. revert d0.
  induction Hall as [| t l [b Hb] Hall IH]; intros d0.
  - by exists d0.
  - destruct (IH (<[Texture.name t := b]> d0)) as (d & E & Hd).
    exists d. cbn [foldl]. rewrite step_ok, Hb.
    split; [done |]. constructor; [| done].
    destruct (decide (Forall (fun t' => Texture.name t' <> Texture.name t) l))
      as [Hno | Hyes].
    + rewrite (to_dict_other _ _ _ _ E Hno), lookup_insert_eq. by eexists.
    + apply not_Forall_Exists in Hyes; [| intros ?; apply _].
      apply Exists_exists in Hyes as (t' & Hin & Hname).
      apply dec_stable in Hname. rewrite <- Hname.
      exact (proj1 (Forall_forall _ _) Hd _ Hin).
Qed.
End ToDict.

(** C4, as the code has it.  The table of [to_dict] is keyed by texture
    name.  For a packed texture that no later texture of the packed sequence
    shares its name with (so for every texture when the names are pairwise
    different), the entry under its name is
    [(x/W, y/H, (x+w)/W, (y+min(h,w))/H)] for its first frame at [(x, y)] of
    size [(w, h)] in the atlas of size [(W, H)]: the fourth number uses
    [min(height, width)]. *)
Theorem uv_entry self h d pre tex post :
  TextureAtlas.textures self = pre ++ tex :: post ->
  Forall (fun t => Texture.name t <> Texture.name tex) post ->
  TextureAtlas.to_dict self h = Ok d ->
  exists frame0 rest,
    Texture.frames tex = frame0 :: rest /\
    d !! Texture.name tex =
      Some (uv_formula (h !!! frame0) (TextureAtlas.width self)
              (TextureAtlas.height self)) /\
    uv_formula (h !!! frame0) (TextureAtlas.width self)
      (TextureAtlas.height self) =
      let f := h !!! frame0 in
      let W := inject_Z (TextureAtlas.width self) in
      let H := inject_Z (TextureAtlas.height self) in
      ((inject_Z (Frame.x f) / W)%Q,
       (inject_Z (Frame.y f) / H)%Q,
       (inject_Z (Frame.x f + Frame.width f) / W)%Q,
       (inject_Z (Frame.y f + Z.min (Frame.height f) (Frame.width f)) / H)%Q).
Proof.
  intros Ht Hlast. unfold TextureAtlas.to_dict. rewrite Ht. intros E.
  destruct (to_dict_last self h ∅ pre tex post d E Hlast) as (b & Hb & Hd).
  apply bounds_ok in Hb as (frame0 & rest & Hf & _ & _ & ->).
  by exists frame0, rest.
Qed.

(** ** The table that [create_atlas] returns *)

Lemma mapM_result_lookup {A B} (f : A -> result B) l l' :
  mapM f l = Ok l' ->
  forall i x, l !! i = Some x -> exists y, f x = Ok y /\ l' !! i = Some y.
Proof.
  revert l'. induction l as [| a l IH]; intros l'; simpl; [done |].
  unfold_result. destruct (f a) as [b |] eqn:Hb; [| done].
  destruct (mapM f l) as [k |] eqn:Hk; [| done].
  intros [= <-] i x Hi. destruct i as [| i]; simpl in *.
  - injection Hi as <-. by exists b.
  - by apply (IH k).
Qed.

(** The atlas of a build holds one texture for every key of the input, named
    after the path of the key and with a frame of its own. *)
Lemma build_textures {K} fs (texture_dict : list (K * string)) fuel atlas h :
  build fs texture_dict fuel = Some (Ok (atlas, h)) ->
  TextureAtlas.textures atlas ≡ₚ textures_of 0 (snd <$> texture_dict).
Proof.
  unfold build.
  destruct (prepare fs texture_dict) as [[[textures h0] size0] |] eqn:Ep; [| done].
  intros E. apply pack_loop_success in E as (turns & h1 & _ & E).
  apply pack_textures_textures in E. simpl in E. rewrite E.
  by apply prepare_spec in Ep as (_ & _ & _ & Hperm & _).
Qed.

(** C6, as the code has it.  When two keys map to the same path, the atlas
    holds a texture for each of them, each with a frame of its own, but the
    table of [to_dict] has one entry for the path, and the returned table
    gives the two keys that same entry. *)
Theorem duplicate_path_same_entry {K} fs (texture_dict : list (K * string))
    fuel atlas h texture_atlas texture_bounds width height
    (i j : nat) k1 k2 path :
  build fs texture_dict fuel = Some (Ok (atlas, h)) ->
  create_atlas fs texture_dict fuel =
    Some (Ok (texture_atlas, texture_bounds, width, height)) ->
  texture_dict !! i = Some (k1, path) ->
  texture_dict !! j = Some (k2, path) ->
  i <> j ->
  TextureAtlas.textures atlas ≡ₚ textures_of 0 (snd <$> texture_dict) /\
  textures_of 0 (snd <$> texture_dict) !! i = Some (Texture.mk path [i]) /\
  textures_of 0 (snd <$> texture_dict) !! j = Some (Texture.mk path [j]) /\
  exists entry,
    texture_bounds !! i = Some (k1, entry) /\
    texture_bounds !! j = Some (k2, entry).
Proof.
  intros Eb Ec Hi Hj Hij.
  split; [by eapply build_textures |].
  split; [| split].
  - unfold textures_of. rewrite list_lookup_imap, list_lookup_fmap, Hi. done.
  - unfold textures_of. rewrite list_lookup_imap, list_lookup_fmap, Hj. done.
  - unfold create_atlas in Ec. rewrite Eb in Ec. injection Ec as Ec.
    unfold finish in Ec. unfold_result.
    destruct (TextureAtlas.to_dict atlas h) as [d |]; [| done].
    destruct (mapM _ texture_dict) as [bounds |] eqn:Em; [| done].
    injection Ec as _ <- _ _.
    destruct (mapM_result_lookup _ _ _ Em _ _ Hi) as (y1 & Hy1 & Hb1).
    destruct (mapM_result_lookup _ _ _ Em _ _ Hj) as (y2 & Hy2 & Hb2).
    simpl in Hy1, Hy2.
    destruct (d !! path) as [entry |]; [| done].
    injection Hy1 as <-. injection Hy2 as <-. by exists entry.
Qed.

(** ** Positions over one turn of the loop *)

Lemma pack_textures_app atlas l1 l2 h :
  pack_textures atlas (l1 ++ l2) h =
    let '(r, a1, h1) := pack_textures atlas l1 h in
    match r with
    | Ok _ => pack_textures a1 l2 h1
    | Raise e => (Raise e, a1, h1)
    end.
Proof.
  revert atlas h. induction l1 as [| t l1 IH]; intros atlas h; simpl; [done |].
  destruct (TextureAtlas.pack atlas t h) as [[r a1] h1].
  destruct r; [apply IH | done].
Qed.

Lemma pack_textures_other atlas textures h res atlas' h' q :
  pack_textures atlas textures h = (res, atlas', h') ->
  q ∉ frames_of textures -> h' !!! q = h !!! q.
Proof.
  intros E Hq. apply pack_textures_pack_all in E as (refused & E & _).
  by eapply pack_all_other.
Qed.

Lemma prepare_unplaced {K} fs (texture_dict : list (K * string)) textures h size :
  prepare fs texture_dict = Ok (textures, h, size) ->
  Forall (fun f => Frame.x f = 0 /\ Frame.y f = 0) h.
Proof.
  intros E. apply prepare_spec in E as (imgs & _ & -> & _).
  apply Forall_lookup. intros i f Hf.
  by apply lookup_zip_with_Some in Hf as (path & img & -> & _ & _).
Qed.

(** C9, as the code has it.  A new frame has [x = y = 0]; there is no unset
    state.  Within one turn of the loop every frame is packed once, and the
    packs that follow leave the position of a packed frame as it is.  (A later
    turn packs every frame again, into a new atlas.) *)
Theorem position_kept_within_turn {K} fs (texture_dict : list (K * string))
    textures h0 size0 :
  prepare fs texture_dict = Ok (textures, h0, size0) ->
  Forall (fun f => Frame.x f = 0 /\ Frame.y f = 0) h0 /\
  NoDup (frames_of textures) /\
  forall size h pre post a1 h1 res a2 h2,
    textures = pre ++ post ->
    pack_textures (TextureAtlas.init size size) pre h = (Ok tt, a1, h1) ->
    pack_textures a1 post h1 = (res, a2, h2) ->
    attempt size textures h = (res, a2, h2) /\
    forall p : addr, p ∈ frames_of pre -> h2 !!! p = h1 !!! p.
Proof.
  intros E. split; [by eapply prepare_unplaced |].
  destruct (prepare_frames _ _ _ _ _ E) as [_ Hperm].
  assert (NoDup (frames_of textures)) as Hnd.
  { rewrite Hperm. apply NoDup_seq. }
  split; [done |].
  intros size h pre post a1 h1 res a2 h2 -> E1 E2. split.
  - unfold attempt. by rewrite pack_textures_app, E1.
  - intros p Hp. eapply pack_textures_other; [exact E2 |].
    unfold frames_of in Hnd. rewrite bind_app in Hnd.
    apply NoDup_app in Hnd as (_ & Hdis & _). by apply Hdis.
Qed.

(** ** Sizes at which every frame fits *)

(** A rectangle that fits the empty region on the right of the tree is
    packed (there or before). *)
Lemma pack_fits_rightmost r p h ok r' h' :
  PackRegion.pack r p h = (ok, r', h') ->
  Frame.width (h !!! p) <= (rightmost r).1 ->
  Frame.height (h !!! p) <= (rightmost r).2 ->
  ok = true.
Proof.
  revert h ok r' h'.
  induction r as [x y w hh | x y w hh q s1 IH1 s2 IH2]; intros h ok r' h'; simpl.
  - intros E Hw Hh.
    destruct (Z.gtb_spec (Frame.width (h !!! p)) w); [lia |].
    destruct (Z.gtb_spec (Frame.height (h !!! p)) hh); [lia |].
    simpl in E. by injection E as <- _ _.
  - destruct (PackRegion.pack s1 p h) as [[ok1 s1'] h1] eqn:E1.
    destruct ok1; [by intros [= <- _ _] |].
    destruct (pack_false _ _ _ _ _ E1) as [-> ->].
    destruct (PackRegion.pack s2 p h) as [[ok2 s2'] h2] eqn:E2.
    intros [= <- _ _] Hw Hh. by eapply IH2.
Qed.

(** A call takes at most the width of the rectangle from the empty region
    on the right, and leaves its height. *)
Lemma pack_rightmost r p h ok r' h' :
  0 <= Frame.width (h !!! p) ->
  PackRegion.pack r p h = (ok, r', h') ->
  (rightmost r').2 = (rightmost r).2 /\
  (rightmost r).1 - Frame.width (h !!! p) <= (rightmost r').1.
Proof.
  intros Hw. revert ok r' h'.
  induction r as [x y w hh | x y w hh q s1 IH1 s2 IH2]; intros ok r' h'; simpl.
  - destruct (_ || _); intros [= <- <- <-]; simpl.
    + lia.
    + unfold Frame.width. simpl. lia.
  - specialize (fun ok r' h' => IH2 ok r' h').
    destruct (PackRegion.pack s1 p h) as [[ok1 s1'] h1] eqn:E1.
    destruct ok1.
    + intros [= <- <- <-]. simpl. lia.
    + destruct (pack_false _ _ _ _ _ E1) as [-> ->].
      destruct (PackRegion.pack s2 p h) as [[ok2 s2'] h2] eqn:E2.
      intros [= <- <- <-]. simpl. by apply (IH2 ok2 s2' h2).
Qed.

Lemma widths_same h h' (frames : list addr) :
  same_frames h h' ->
  (fun f => Frame.width (h' !!! f)) <$> frames =
  (fun f => Frame.width (h !!! f)) <$> frames.
Proof.
  intros Hs. apply list_fmap_ext. intros i f _.
  by destruct (same_frames_lookup h h' f Hs) as (-> & _).
Qed.

Lemma heights_same h h' (frames : list addr) bound :
  same_frames h h' ->
  Forall (fun f => Frame.height (h !!! f) <= bound) frames ->
  Forall (fun f => Frame.height (h' !!! f) <= bound) frames.
Proof.
  intros Hs Hall. eapply Forall_impl; [exact Hall |]. intros f. simpl.
  by destruct (same_frames_lookup h h' f Hs) as (_ & -> & _).
Qed.

Lemma roomy_same size h h' frames :
  same_frames h h' -> roomy size h frames -> roomy size h' frames.
Proof.
  intros Hs [Hw Hh]. split.
  - by rewrite (widths_same _ _ _ Hs).
  - by eapply heights_same.
Qed.

Lemma roomy_mono size size' h frames :
  size <= size' -> roomy size h frames -> roomy size' h frames.
Proof.
  intros Hle [Hw Hh]. split; [lia |].
  eapply Forall_impl; [exact Hh |]. simpl. intros; lia.
Qed.

(** Frames that can sit side by side in the empty region on the right are
    all packed. *)
Lemma pack_all_fits r frames h :
  sizes_ok h ->
  foldr Z.add 0 ((fun f => Frame.width (h !!! f)) <$> frames)
    <= (rightmost r).1 ->
  Forall (fun f => Frame.height (h !!! f) <= (rightmost r).2) frames ->
  exists r' h', pack_all r frames h = (None, r', h').
Proof.
  revert r h. induction frames as [| f rest IH]; intros r h Hs Hw Hh.
  - simpl. eauto.
  - rewrite fmap_cons in Hw. cbn [foldr] in Hw.
    apply Forall_cons in Hh as [Hf Hh].
    assert (0 <= foldr Z.add 0 ((fun f => Frame.width (h !!! f)) <$> rest))
      as Hrest.
    { clear -Hs. induction rest as [| g rest IH]; [simpl; lia |].
      rewrite fmap_cons. cbn [foldr].
      destruct (sizes_ok_lookup h g Hs). lia. }
    destruct (sizes_ok_lookup h f Hs) as [Hfw _].
    simpl. destruct (PackRegion.pack r f h) as [[ok r1] h1] eqn:E1.
    assert (ok = true) as -> by (eapply pack_fits_rightmost; [exact E1 | lia | lia]).
    destruct (pack_rightmost _ _ _ _ _ _ Hfw E1) as [Hr2 Hr1].
    pose proof (pack_same_frames _ _ _ _ _ _ E1) as Hsame.
    apply IH.
    + by eapply sizes_ok_same.
    + rewrite (widths_same _ _ _ Hsame). lia.
    + rewrite Hr2. by eapply heights_same.
Qed.

(** A turn with a roomy size packs every texture. *)
Lemma attempt_roomy size textures h :
  sizes_ok h ->
  roomy size h (frames_of textures) ->
  exists atlas h', attempt size textures h = (Ok tt, atlas, h').
Proof.
  intros Hs [Hw Hh].
  destruct (pack_all_fits (PackRegion.init 0 0 size size) (frames_of textures) h)
    as (r' & h' & E); [done | done | done |].
  unfold attempt.
  destruct (pack_textures (TextureAtlas.init size size) textures h)
    as [[res atlas] h''] eqn:Et.
  destruct (pack_textures_pack_all _ _ _ _ _ _ Et) as (refused & E' & ->).
  change (TextureAtlas.region (TextureAtlas.init size size))
    with (PackRegion.init 0 0 size size) in E'.
  rewrite E in E'.
  injection E' as <- _ _. by exists atlas, h''.
Qed.

(** A turn raises nothing but [AtlasTooSmall]. *)
Lemma attempt_raises size textures h e atlas h' :
  attempt size textures h = (Raise e, atlas, h') ->
  exists msg, e = AtlasTooSmall msg.
Proof.
  intros E. apply pack_textures_pack_all in E as (refused & _ & Hres).
  destruct refused; [| done]. injection Hres as ->. by eexists.
Qed.

Lemma textures_of_elem base values t :
  t ∈ textures_of base values ->
  exists i path, values !! i = Some path /\ t = Texture.mk path [(base + i)%nat].
Proof.
  intros Ht. apply list_elem_of_lookup in Ht as [i Hi].
  unfold textures_of in Hi. rewrite list_lookup_imap in Hi.
  destruct (values !! i) as [path |] eqn:Hp; [| done].
  injection Hi as <-. by exists i, path.
Qed.

Lemma initial_size_pos height width pixels : 1 <= initial_size height width pixels.
Proof.
  unfold initial_size. rewrite Z.shiftl_1_l.
  pose proof (bit_length_nonneg (ceil_sqrt pixels - 1)) as Hb.
  pose proof (Z.pow_pos_nonneg 2 (bit_length (ceil_sqrt pixels - 1))). lia.
Qed.

Lemma parse_textures_fail fs before path after ts h :
  Forall (fun p => is_Some (fs p)) before ->
  fs path = None ->
  parse_textures fs (before ++ path :: after) ts h =
    Raise (ImageOpenError path).
Proof.
  intros Hall Hnone. revert ts h.
  induction Hall as [| p rest [img Himg] _ IH]; intros ts h; simpl.
  - unfold Frame.init. unfold_result. by rewrite Hnone.
  - unfold Frame.init. unfold_result. rewrite Himg. simpl. apply IH.
Qed.


(** ** Images of zero width or height *)


(** * Further properties of the module *)

(** ** [PackRegion.pack] and [get_all_packables] *)

(** X1.  A [pack] call that returns [False] leaves the region tree and the
    heap of frames exactly as they were. *)
Theorem refused_pack_changes_nothing r (p : addr) h r' h' :
  PackRegion.pack r p h = (false, r', h') -> r' = r /\ h' = h.
Proof.
  revert h r' h'.
  induction r as [x y w hh | x y w hh q s1 IH1 s2 IH2]; intros h r' h'.
  - (* an empty region refuses before it assigns anything *)
    simpl. destruct (_ || _); intros [= <- <-]; auto.
  - (* a packed region refuses when both children refuse *)
    simpl. destruct (PackRegion.pack s1 p h) as [[ok1 s1'] h1] eqn:E1.
    destruct ok1; [intros [=] |].
    destruct (IH1 _ _ _ E1) as [-> ->].
    destruct (PackRegion.pack s2 p h) as [[ok2 s2'] h2] eqn:E2.
    intros [= -> <- <-].
    destruct (IH2 _ _ _ E2) as [-> ->]; auto.
Qed.

(** X2.  A [pack] call that returns [True] adds the frame, and nothing else,
    to [get_all_packables]; the region keeps its origin and size; no other
    frame is written; and the frame keeps its width and height. *)
Theorem accepted_pack_effect r (p : addr) h r' h' :
  PackRegion.pack r p h = (true, r', h') ->
  PackRegion.get_all_packables r' ≡ₚ p :: PackRegion.get_all_packables r /\
  (PackRegion.x r', PackRegion.y r', PackRegion.width r', PackRegion.height r')
    = (PackRegion.x r, PackRegion.y r, PackRegion.width r, PackRegion.height r) /\
  length h' = length h /\
  (forall q : addr, q <> p -> h' !!! q = h !!! q) /\
  Frame.width (h' !!! p) = Frame.width (h !!! p) /\
  Frame.height (h' !!! p) = Frame.height (h !!! p).
Proof.
  intros E.
  split; [by eapply pack_packables |].
  destruct (pack_bounds _ _ _ _ _ _ E) as (-> & -> & -> & ->).
  split; [done |]. split; [by eapply pack_length |].
  split; [intros q Hq; by eapply pack_other |].
  destruct (same_frames_lookup h h' p (pack_same_frames _ _ _ _ _ _ E))
    as (? & ? & _).
  done.
Qed.

(** ** Areas *)

Lemma layout_area h r :
  layout h r ->
  0 <= PackRegion.width r -> 0 <= PackRegion.height r ->
  area_sum h (PackRegion.get_all_packables r)
    <= PackRegion.width r * PackRegion.height r.
Proof.
  unfold area_sum.
  induction r as [x y w hh | x y w hh p s1 IH1 s2 IH2]; simpl.
  - intros _ ? ?. nia.
  - intros (Hx & Hy & Hfw & Hfh & B1 & B2 & B3 & B4 & B5 & B6 & B7 & B8 & L1 & L2) Hw Hh.
    rewrite fmap_app, foldr_app.
    specialize (IH1 L1). specialize (IH2 L2).
    rewrite B3, B4 in IH1. rewrite B7, B8 in IH2.
    specialize (IH1 ltac:(lia) ltac:(lia)). specialize (IH2 ltac:(lia) ltac:(lia)).
    assert (forall (l : list Z) a, foldr Z.add a l = a + foldr Z.add 0 l) as Hfold.
    { clear. induction l as [| z l IH]; intros a; simpl; [lia |].
      rewrite (IH a). lia. }
    rewrite Hfold. nia.
Qed.

Lemma area_sum_all h :
  area_sum h (seq 0 (length h)) = total_pixel_area h.
Proof.
  unfold area_sum, total_pixel_area.
  by rewrite (fmap_lookup_seq (fun f => Frame.height f * Frame.width f) [] h).
Qed.

(** X3.  The atlas that a build ends with is large enough in area: the
    areas of all the frames add up to at most width times height. *)
Theorem atlas_area_suffices {K} fs (texture_dict : list (K * string)) fuel
    atlas h :
  decodes_ok fs ->
  build fs texture_dict fuel = Some (Ok (atlas, h)) ->
  total_pixel_area h <= TextureAtlas.width atlas * TextureAtlas.height atlas.
Proof.
  intros Hfs E.
  destruct (build_success _ _ _ _ _ Hfs E)
    as (ts & h0 & size0 & turns & Ep & Hsame & L & Hperm & _ & Hw & Hh).
  pose proof (prepare_size _ _ _ _ _ Ep) as Hsize.
  pose proof (initial_size_pos (max_frame_height h0) (max_frame_width h0)
                (total_pixel_area h0)) as Hpos.
  rewrite <- Hsize in Hpos.
  assert (0 < 2 ^ Z.of_nat turns) as Hpow by (apply Z.pow_pos_nonneg; lia).
  destruct (prepare_frames _ _ _ _ _ Ep) as [_ Hseq].
  rewrite <- area_sum_all, (same_frames_length _ _ Hsame).
  assert (PackRegion.get_all_packables (TextureAtlas.region atlas)
            ≡ₚ seq 0 (length h0)) as Hall by (by rewrite Hperm).
  pose proof (layout_area h (TextureAtlas.region atlas) L) as Harea.
  unfold TextureAtlas.width, TextureAtlas.height in *.
  unfold area_sum in *.
  rewrite <- (foldr_add_perm _ _ (fmap_Permutation _ _ _ Hall)).
  apply Harea; nia.
Qed.

(** ** The returned table and the returned size *)

Lemma mapM_result_length {A B} (f : A -> result B) l l' :
  mapM f l = Ok l' -> length l' = length l.
Proof.
  revert l'. induction l as [| a l IH]; intros l'; simpl.
  - by intros [= <-].
  - unfold_result. destruct (f a) as [b |]; [| done].
    destruct (mapM f l) as [k |] eqn:Hk; [| done].
    intros [= <-]. simpl. f_equal. by apply IH.
Qed.

Lemma create_atlas_inv {K} fs (texture_dict : list (K * string)) fuel
    texture_atlas texture_bounds width height :
  create_atlas fs texture_dict fuel =
    Some (Ok (texture_atlas, texture_bounds, width, height)) ->
  exists atlas h d,
    build fs texture_dict fuel = Some (Ok (atlas, h)) /\
    TextureAtlas.to_dict atlas h = Ok d /\
    mapM (fun '(tex_id, texture_path) =>
            match d !! texture_path with
            | Some b => Ok (tex_id, b)
            | None => Raise (KeyError texture_path)
            end) texture_dict = Ok texture_bounds /\
    texture_atlas = Canvas.ravel (TextureAtlas.generate atlas h) /\
    width = TextureAtlas.width atlas /\ height = TextureAtlas.height atlas.
Proof.
  unfold create_atlas.
  destruct (build fs texture_dict fuel) as [[[atlas h] | e] |]; try done.
  intros [= E]. exists atlas, h. unfold finish in E.
  destruct (TextureAtlas.to_dict atlas h) as [d |] eqn:Ed; [| done].
  exists d.
  destruct (mapM (fun '(tex_id, texture_path) =>
            match d !! texture_path with
            | Some b => Ok (tex_id, b)
            | None => Raise (KeyError texture_path)
            end) texture_dict) as [bounds |] eqn:Em.
  - unfold_result. rewrite Em in E. by injection E as <- <- <- <-.
  - unfold_result. by rewrite Em in E.
Qed.

(** X4.  The table that [create_atlas] returns has the keys of the input
    mapping, in the order of the input, one entry for each; the entry of a
    key is the entry of [to_dict] under the key's path. *)
Theorem returned_table_keys {K} fs (texture_dict : list (K * string)) fuel
    texture_atlas texture_bounds width height :
  create_atlas fs texture_dict fuel =
    Some (Ok (texture_atlas, texture_bounds, width, height)) ->
  fst <$> texture_bounds = fst <$> texture_dict /\
  exists atlas h d,
    build fs texture_dict fuel = Some (Ok (atlas, h)) /\
    TextureAtlas.to_dict atlas h = Ok d /\
    length (TextureAtlas.textures atlas) = length texture_dict /\
    forall (i : nat) k path,
      texture_dict !! i = Some (k, path) ->
      exists entry, d !! path = Some entry /\
                    texture_bounds !! i = Some (k, entry).
Proof.
  intros E.
  destruct (create_atlas_inv _ _ _ _ _ _ _ E) as (atlas & h & d & Eb & Ed & Em & _).
  split.
  - apply list_eq. intros i. rewrite !list_lookup_fmap.
    destruct (texture_dict !! i) as [[k path] |] eqn:Hi.
    + destruct (mapM_result_lookup _ _ _ Em _ _ Hi) as (y & Hy & ->).
      simpl in Hy. destruct (d !! path); [| done]. by injection Hy as <-.
    + apply lookup_ge_None in Hi.
      rewrite <- (mapM_result_length _ _ _ Em) in Hi.
      apply lookup_ge_None in Hi. by rewrite Hi.
  - exists atlas, h, d. split; [done |]. split; [done |]. split.
    + rewrite (build_textures _ _ _ _ _ Eb). unfold textures_of.
      by rewrite length_imap, length_fmap.
    + intros i k path Hi.
      destruct (mapM_result_lookup _ _ _ Em _ _ Hi) as (y & Hy & Hb).
      simpl in Hy. destruct (d !! path) as [entry |]; [| done].
      injection Hy as <-. by exists entry.
Qed.

(** ** A path that cannot be opened *)

(** X5.  When a path of the mapping cannot be opened, [create_atlas] raises
    the error of [Image.open] for the first such path, before any atlas is
    tried: no number of turns of the loop is needed, and nothing is
    returned. *)
Theorem unopenable_path_raises {K} fs (before after : list (K * string))
    k path fuel :
  Forall (fun kp => is_Some (fs kp.2)) before ->
  fs path = None ->
  create_atlas fs (before ++ (k, path) :: after) fuel =
    Some (Raise (ImageOpenError path)).
Proof.
  intros Hall Hnone. unfold create_atlas, build, prepare.
  rewrite fmap_app, fmap_cons. simpl snd.
  rewrite parse_textures_fail; [done | | done].
  by apply Forall_fmap.
Qed.

(** ** The first candidate size is never too small for a single frame *)

Lemma foldr_max_ge (l : list Z) x : x ∈ l -> x <= foldr Z.max 0 l.
Proof.
  induction l as [| y l IH]; simpl; [by intros ?%elem_of_nil |].
  intros [-> | Hx]%elem_of_cons; [lia |]. specialize (IH Hx). lia.
Qed.

Lemma total_pixel_area_nonneg h : sizes_ok h -> 0 <= total_pixel_area h.
Proof.
  unfold total_pixel_area. induction 1 as [| f l [Hw Hh] _ IH]; [simpl; lia |].
  rewrite fmap_cons. cbn [foldr]. nia.
Qed.

Lemma power_term_bounds pixels :
  0 <= pixels <= 2 ^ 52 ->
  let p := Z.shiftl 1 (bit_length (ceil_sqrt pixels - 1)) in
  1 <= p /\ pixels <= p * p.
Proof.
  intros Hp p.
  destruct (ceil_sqrt_spec pixels Hp) as (Hk & Hle & _).
  assert (ceil_sqrt pixels <= p /\ 1 <= p) as [Hkp H1].
  { destruct (decide (ceil_sqrt pixels = 0)) as [E | Hne].
    - unfold p. rewrite E.
      replace (Z.shiftl 1 (bit_length (0 - 1))) with 2 by reflexivity. lia.
    - destruct (next_power_of_two_spec (ceil_sqrt pixels)) as (_ & Hn & _);
        [lia |]. fold p in Hn. lia. }
  split; [done |]. nia.
Qed.

(** X6.  The first candidate size is at least 1 and at least the width and
    the height of every frame: no frame is refused by an empty atlas of
    that size.  For a total pixel area of at most [2^52] its square is at
    least that area: the size is not below what the area alone demands.
    (For larger areas the float square root can fall short.) *)
Theorem initial_size_bounds {K} fs (texture_dict : list (K * string))
    textures h size :
  decodes_ok fs ->
  prepare fs texture_dict = Ok (textures, h, size) ->
  1 <= size /\
  (total_pixel_area h <= 2 ^ 52 -> total_pixel_area h <= size * size) /\
  Forall (fun f => Frame.width f <= size /\ Frame.height f <= size) h.
Proof.
  intros Hfs E.
  pose proof (prepare_sizes_ok _ _ _ _ _ Hfs E) as Hs.
  pose proof (prepare_size _ _ _ _ _ E) as ->.
  pose proof (total_pixel_area_nonneg h Hs) as Hpos.
  pose proof (initial_size_pos (max_frame_height h) (max_frame_width h)
                (total_pixel_area h)) as H1.
  split; [done |]. split.
  { intros Hsmall.
    destruct (power_term_bounds (total_pixel_area h)) as [Hp Hsq]; [lia |].
    unfold initial_size.
    set (p := Z.shiftl 1 (bit_length (ceil_sqrt (total_pixel_area h) - 1))) in *.
    nia. }
  unfold initial_size.
  apply Forall_forall. intros f Hf.
  assert (Frame.width f <= max_frame_width h) as Hw.
  { apply foldr_max_ge, list_elem_of_fmap. by exists f. }
  assert (Frame.height f <= max_frame_height h) as Hh.
  { apply foldr_max_ge, list_elem_of_fmap. by exists f. }
  lia.
Qed.

(** ** The first texture sits at the origin *)

Lemma pack_keeps_root x y w hh q s1 s2 p h ok r' h' :
  PackRegion.pack (PackRegion.Packed x y w hh q s1 s2) p h = (ok, r', h') ->
  exists s1' s2', r' = PackRegion.Packed x y w hh q s1' s2'.
Proof.
  simpl. destruct (PackRegion.pack s1 p h) as [[ok1 s1'] h1].
  destruct ok1; [intros [= <- <- <-]; eauto |].
  destruct (PackRegion.pack s2 p h1) as [[ok2 s2'] h2].
  intros [= <- <- <-]. eauto.
Qed.

Lemma pack_all_keeps_root x y w hh q s1 s2 frames h refused r' h' :
  pack_all (PackRegion.Packed x y w hh q s1 s2) frames h = (refused, r', h') ->
  exists s1' s2', r' = PackRegion.Packed x y w hh q s1' s2'.
Proof.
  revert s1 s2 h. induction frames as [| f rest IH]; intros s1 s2 h;
    cbn [pack_all].
  - intros [= <- <- <-]. eauto.
  - destruct (PackRegion.pack (PackRegion.Packed x y w hh q s1 s2) f h)
      as [[ok r1] h1] eqn:E1.
    destruct (pack_keeps_root _ _ _ _ _ _ _ _ _ _ _ _ E1) as (s1' & s2' & ->).
    destruct ok; [apply IH | intros [= <- <- <-]; eauto].
Qed.

Lemma pack_all_first_at_root x y w hh p rest h r' h' :
  pack_all (PackRegion.Empty x y w hh) (p :: rest) h = (None, r', h') ->
  exists s1 s2, r' = PackRegion.Packed x y w hh p s1 s2.
Proof.
  cbn [pack_all].
  destruct (PackRegion.pack (PackRegion.Empty x y w hh) p h) as [[ok r1] h1] eqn:E1.
  destruct ok; [| done].
  simpl in E1. destruct (_ || _); [done |]. injection E1 as <- <-.
  apply pack_all_keeps_root.
Qed.

(** X7.  In the atlas that a build ends with, the first texture of the
    packed sequence has its frame at [(0, 0)]. *)
Theorem first_texture_at_origin {K} fs (texture_dict : list (K * string)) fuel
    atlas h t rest :
  decodes_ok fs ->
  build fs texture_dict fuel = Some (Ok (atlas, h)) ->
  TextureAtlas.textures atlas = t :: rest ->
  exists p : addr,
    Texture.frames t = [p] /\
    Frame.x (h !!! p) = 0 /\ Frame.y (h !!! p) = 0.
Proof.
  intros Hfs Eb Ht.
  destruct (build_success _ _ _ _ _ Hfs Eb)
    as (ts & h0 & size0 & turns & _ & _ & L & _ & <- & _ & _).
  pose proof (build_textures _ _ _ _ _ Eb) as Hperm.
  assert (t ∈ textures_of 0 (snd <$> texture_dict)) as Hin.
  { rewrite <- Hperm, Ht. apply elem_of_cons. by left. }
  apply textures_of_elem in Hin as (i & path & _ & Hti).
  exists i. split; [by rewrite Hti |].
  unfold build in Eb.
  destruct (prepare fs texture_dict) as [[[ts' h0'] size0'] |]; [| done].
  apply pack_loop_success in Eb as (n & h1 & _ & Ea).
  unfold attempt in Ea.
  pose proof (pack_textures_textures _ _ _ _ _ Ea) as Hts. simpl in Hts.
  apply pack_textures_pack_all in Ea as (refused & Ea & Hres).
  destruct refused; [done |].
  rewrite <- Hts, Ht in Ea. unfold frames_of in Ea.
  rewrite bind_cons, Hti in Ea. simpl in Ea.
  change (PackRegion.pack (PackRegion.Empty 0 0 (size0' * 2 ^ Z.of_nat n)
            (size0' * 2 ^ Z.of_nat n)) (0 + i)%nat h1)
    with (PackRegion.pack (PackRegion.Empty 0 0 (size0' * 2 ^ Z.of_nat n)
            (size0' * 2 ^ Z.of_nat n)) i h1) in Ea.
  change (let '(ok, r', h') :=
            PackRegion.pack (PackRegion.Empty 0 0 (size0' * 2 ^ Z.of_nat n)
              (size0' * 2 ^ Z.of_nat n)) i h1 in
          if ok then pack_all r' (rest ≫= Texture.frames) h' else (Some i, r', h'))
    with (pack_all (PackRegion.Empty 0 0 (size0' * 2 ^ Z.of_nat n)
            (size0' * 2 ^ Z.of_nat n)) (i :: (rest ≫= Texture.frames)) h1) in Ea.
  apply pack_all_first_at_root in Ea as (s1 & s2 & Hr).
  rewrite Hr in L. simpl in L. by destruct L as (? & ? & _).
Qed.

(** ** The order in which textures are packed *)

Lemma insert_desc_sorted {A} (ka : Z * A) l :
  StronglySorted (fun a b => b.1 <= a.1) l ->
  StronglySorted (fun a b => b.1 <= a.1) (insert_desc ka l).
Proof.
  induction 1 as [| kb l Hl IH Hall]; simpl.
  - repeat constructor.
  - destruct (Z.gtb_spec kb.1 ka.1) as [Hgt | Hle].
    + constructor; [done |].
      rewrite insert_desc_perm. constructor; [lia | done].
    + constructor; [by constructor |].
      constructor; [done |].
      eapply Forall_impl; [exact Hall |]. simpl. intros; lia.
Qed.

Lemma sort_desc_sorted {A} (keyed : list (Z * A)) :
  StronglySorted (fun a b => b.1 <= a.1) (foldr insert_desc [] keyed).
Proof.
  induction keyed as [| ka l IH]; simpl; [constructor |].
  by apply insert_desc_sorted.
Qed.

(** Elements with one key keep the order they come in. *)
Lemma insert_desc_stable {A} (ka : Z * A) l k :
  filter (fun kb => kb.1 = k) (insert_desc ka l) =
  filter (fun kb => kb.1 = k) (ka :: l).
Proof.
  induction l as [| kb l IH]; simpl; [done |].
  destruct (Z.gtb_spec kb.1 ka.1) as [Hgt | Hle]; [| done].
  rewrite !filter_cons in *. simpl in *.
  destruct (decide (kb.1 = k)) as [Hkb | Hkb];
    destruct (decide (ka.1 = k)) as [Hka | Hka]; try lia;
    rewrite IH; done.
Qed.

Lemma sort_desc_stable {A} (keyed : list (Z * A)) k :
  filter (fun kb => kb.1 = k) (foldr insert_desc [] keyed) =
  filter (fun kb => kb.1 = k) keyed.
Proof.
  induction keyed as [| ka l IH]; simpl; [done |].
  rewrite insert_desc_stable, !filter_cons, IH. done.
Qed.

Lemma mapM_keyed_keys {A} (key : A -> result Z) l keyed :
  mapM (fun a => k ← key a; Ok (k, a)) l = Ok keyed ->
  keyed = (fun a => (match key a with Ok k => k | Raise _ => 0 end, a)) <$> l.
Proof.
  revert keyed. induction l as [| a l IH]; intros keyed; simpl.
  - by intros [= <-].
  - unfold_result. destruct (key a) as [k |] eqn:Hk; [| done].
    destruct (mapM _ l) as [keyed' |] eqn:Hm; [| done].
    intros [= <-]. by rewrite (IH _ eq_refl).
Qed.

Lemma sorted_reverse_facts {A} (key : A -> result Z) (keyv : A -> Z) l l' :
  (forall a, a ∈ l -> key a = Ok (keyv a)) ->
  sorted_reverse key l = Ok l' ->
  l' ≡ₚ l /\
  StronglySorted (fun a b => keyv b <= keyv a) l' /\
  forall k, filter (fun a => keyv a = k) l' = filter (fun a => keyv a = k) l.
Proof.
  intros Hkey E. split; [by eapply sorted_reverse_perm |].
  unfold sorted_reverse in E. unfold_result.
  destruct (mapM _ l) as [keyed |] eqn:Hm; [| done].
  injection E as <-.
  apply mapM_keyed_keys in Hm.
  assert (keyed = (fun a => (keyv a, a)) <$> l) as ->.
  { rewrite Hm. apply list_fmap_ext. intros i a Ha.
    rewrite (Hkey a); [done |]. by eapply list_elem_of_lookup_2. }
  clear Hm Hkey.
  assert (Forall (fun ka => ka.1 = keyv ka.2)
            (foldr insert_desc [] ((fun a => (keyv a, a)) <$> l))) as Hk.
  { rewrite sort_desc_perm. apply Forall_fmap, Forall_forall. done. }
  split.
  - pose proof (sort_desc_sorted ((fun a => (keyv a, a)) <$> l)) as Hs.
    induction Hs as [| ka rest Hrest IH Hall]; simpl; [constructor |].
    apply Forall_cons in Hk as [Hka Hk].
    constructor; [by apply IH |].
    apply Forall_fmap.
    eapply Forall_impl; [exact (proj2 (Forall_and _ _) (conj Hall Hk)) |].
    simpl. intros kb [Hle Hkb]. lia.
  - intros k.
    pose proof (sort_desc_stable ((fun a => (keyv a, a)) <$> l) k) as Hst.
    assert (forall m : list (Z * A),
              Forall (fun ka => ka.1 = keyv ka.2) m ->
              filter (fun a => keyv a = k) (snd <$> m) =
              snd <$> filter (fun kb => kb.1 = k) m) as Hf.
    { clear. induction 1 as [| ka m Hka _ IH]; [done |].
      rewrite fmap_cons, !filter_cons, IH. rewrite Hka.
      by destruct (decide (keyv ka.2 = k)). }
    rewrite Hf by done. rewrite Hst.
    rewrite <- Hf by (apply Forall_fmap, Forall_forall; done).
    f_equal. rewrite <- list_fmap_compose. by rewrite list_fmap_id.
Qed.

(** X8.  [sorted(l, key=key, reverse=True)], when no key raises, returns the
    elements of [l] in non-increasing key order, and the elements that have
    one and the same key come in the order they have in [l]. *)
Theorem sorted_reverse_spec {A} (key : A -> result Z) (keyv : A -> Z) l l' :
  (forall a, a ∈ l -> key a = Ok (keyv a)) ->
  sorted_reverse key l = Ok l' ->
  l' ≡ₚ l /\
  StronglySorted (fun a b => keyv b <= keyv a) l' /\
  forall k, filter (fun a => keyv a = k) l' = filter (fun a => keyv a = k) l.
Proof. apply sorted_reverse_facts. Qed.

Lemma texture_perimeter_same h h' t :
  same_frames h h' -> texture_perimeter h' t = texture_perimeter h t.
Proof.
  intros Hs. unfold texture_perimeter.
  destruct (Texture.frames t) as [| f0 rest]; [done |].
  destruct (same_frames_lookup h h' f0 Hs) as (Hw & Hh & _).
  unfold Frame.perimeter, Packable.perimeter, Frame.width, Frame.height in *.
  lia.
Qed.

Lemma prepare_sorted {K} fs (texture_dict : list (K * string)) textures h size :
  prepare fs texture_dict = Ok (textures, h, size) ->
  StronglySorted
    (fun a b => texture_perimeter h b <= texture_perimeter h a) textures /\
  forall k,
    filter (fun t => texture_perimeter h t = k) textures =
    filter (fun t => texture_perimeter h t = k)
      (textures_of 0 (snd <$> texture_dict)).
Proof.
  unfold prepare. unfold_result.
  destruct (parse_textures fs (snd <$> texture_dict) [] []) as [[ts h0] |] eqn:Ep;
    [| done].
  destruct (sorted_reverse (perimeter_key h0) ts) as [sorted |] eqn:Es; [| done].
  destruct (measure h0 sorted) as [[height width] pixels].
  destruct (float_limit <=? pixels); [done |].
  intros [= <- <- <-].
  apply parse_textures_spec in Ep as (imgs & _ & _ & ->). simpl in *.
  eapply (sorted_reverse_facts _ (texture_perimeter h0)) in Es as (_ & Hs & Hst);
    [done |].
  intros t Ht. apply textures_of_elem in Ht as (i & path & _ & ->).
  reflexivity.
Qed.

Lemma strongly_sorted_impl {A} (R1 R2 : A -> A -> Prop) l :
  (forall a b, R1 a b -> R2 a b) -> StronglySorted R1 l -> StronglySorted R2 l.
Proof.
  intros Himpl. induction 1 as [| a l _ IH Hall]; constructor; [done |].
  eapply Forall_impl; [exact Hall | auto].
Qed.

(** X9.  The textures of the atlas that a build ends with are in
    non-increasing order of the perimeter of their first frame, and the
    textures with one and the same perimeter are in the order of the input
    mapping. *)
Theorem packed_by_perimeter {K} fs (texture_dict : list (K * string)) fuel
    atlas h :
  build fs texture_dict fuel = Some (Ok (atlas, h)) ->
  StronglySorted
    (fun a b => texture_perimeter h b <= texture_perimeter h a)
    (TextureAtlas.textures atlas) /\
  forall k,
    filter (fun t => texture_perimeter h t = k) (TextureAtlas.textures atlas) =
    filter (fun t => texture_perimeter h t = k)
      (textures_of 0 (snd <$> texture_dict)).
Proof.
  unfold build.
  destruct (prepare fs texture_dict) as [[[textures h0] size0] |] eqn:Ep; [| done].
  intros E. apply pack_loop_success in E as (turns & h1 & Hsame & E).
  pose proof (attempt_same_frames _ _ _ _ _ _ E) as Hsame'.
  pose proof (same_frames_trans _ _ _ Hsame Hsame') as Hs.
  apply pack_textures_textures in E. simpl in E. rewrite E.
  destruct (prepare_sorted _ _ _ _ _ Ep) as [Hsorted Hstable].
  split.
  - eapply strongly_sorted_impl; [| exact Hsorted].
    intros a b. simpl. by rewrite !(texture_perimeter_same h0 h _ Hs).
  - intros k.
    rewrite (list_filter_iff _ (fun t => texture_perimeter h0 t = k) textures).
    + rewrite Hstable. apply list_filter_iff.
      intros t. by rewrite (texture_perimeter_same h0 h _ Hs).
    + intros t. by rewrite (texture_perimeter_same h0 h _ Hs).
Qed.

(** ** When [to_dict] raises, and what its keys are *)

Section ToDictEntries.
Variable self : TextureAtlas.t.
Variable h : heap.

Let step (acc : result (gmap string uv)) (tex : Texture.t) :=
  d ← acc;
  b ← TextureAtlas.bounds self h tex;
  Ok (<[Texture.name tex := b]> d).

Lemma to_dict_entries d0 l d :
  foldl step (Ok d0) l = Ok d ->
  Forall (fun t => exists b, TextureAtlas.bounds self h t = Ok b) l /\
  forall k b, d !! k = Some b ->
    d0 !! k = Some b \/
    exists t, t ∈ l /\ Texture.name t = k /\ TextureAtlas.bounds self h t = Ok b.
Proof.
  revert d0. induction l as [| t l IH]; intros d0 E.
  - injection E as <-. split; [constructor | auto].
  - apply (to_dict_cons self h) in E as (b & Hb & E).
    destruct (IH _ E) as [Hall Hent]. split.
    + constructor; [by exists b | done].
    + intros k b' Hk. destruct (Hent k b' Hk) as [H0 | (t' & Hin & Hn & Hb')].
      * destruct (decide (Texture.name t = k)) as [<- | Hne].
        -- rewrite lookup_insert_eq in H0. injection H0 as <-.
           right. exists t. split; [apply elem_of_cons; by left | done].
        -- rewrite lookup_insert_ne in H0 by done. by left.
      * right. exists t'. split; [apply elem_of_cons; by right | done].
Qed.
End ToDictEntries.

Lemma bounds_failure self h tex :
  TextureAtlas.bounds self h tex =
    match texture_failure self h tex with
    | Some e => Raise e
    | None =>
        match Texture.frames tex with
        | frame0 :: _ =>
            Ok (uv_formula (h !!! frame0) (TextureAtlas.width self)
                  (TextureAtlas.height self))
        | [] => Raise IndexError
        end
    end.
Proof.
  unfold TextureAtlas.bounds, texture_failure, truediv.
  destruct (Texture.frames tex) as [| frame0 rest]; [done |].
  unfold_result. cbv zeta.
  destruct (TextureAtlas.width self =? 0); [done |].
  destruct (too_large (Frame.x _) _); [done |].
  destruct (TextureAtlas.height self =? 0); [done |].
  destruct (too_large (Frame.y _) _); [done |].
  destruct (too_large (_ + Frame.width _) _); [done |].
  by destruct (too_large (_ + Z.min _ _) _).
Qed.

Lemma bounds_no_failure self h tex :
  texture_failure self h tex = None ->
  exists b, TextureAtlas.bounds self h tex = Ok b.
Proof.
  intros Ht. rewrite bounds_failure, Ht. unfold texture_failure in Ht.
  destruct (Texture.frames tex); [done | by eexists].
Qed.

Lemma to_dict_first_failure self h before tex after e
    (d0 : gmap string uv) :
  Forall (fun t => texture_failure self h t = None) before ->
  texture_failure self h tex = Some e ->
  foldl (fun acc tex =>
           d ← acc;
           b ← TextureAtlas.bounds self h tex;
           Ok (<[Texture.name tex := b]> d))
        (Ok d0) (before ++ tex :: after) = Raise e.
Proof.
  intros Hall Hfail. revert d0.
  induction Hall as [| t before Ht _ IH]; intros d0; cbn [foldl app].
  - rewrite (step_ok self h), bounds_failure, Hfail. apply to_dict_raise.
  - destruct (bounds_no_failure _ _ _ Ht) as [b Hb].
    rewrite (step_ok self h), Hb. apply IH.
Qed.

(** X10.  [to_dict] goes through the textures of the atlas in order, and
    the first texture whose tuple cannot be computed decides the exception:
    [IndexError] when it has no frame; else [ZeroDivisionError] when the
    width of the atlas is zero, [OverflowError] when [x / width] is too
    large for a float, [ZeroDivisionError] when the height is zero, and
    [OverflowError] for the first of [y / height], [(x + w) / width] and
    [(y + min(h, w)) / height] that is too large.  A table is returned
    exactly when there is no such texture. *)
Theorem to_dict_outcome self h :
  ((exists d, TextureAtlas.to_dict self h = Ok d) <->
   Forall (fun t => texture_failure self h t = None)
     (TextureAtlas.textures self)) /\
  (forall before tex after e,
     TextureAtlas.textures self = before ++ tex :: after ->
     Forall (fun t => texture_failure self h t = None) before ->
     texture_failure self h tex = Some e ->
     TextureAtlas.to_dict self h = Raise e) /\
  (forall tex e,
     texture_failure self h tex = Some e ->
     match e with
     | IndexError => Texture.frames tex = []
     | ZeroDivisionError =>
         Texture.frames tex <> [] /\
         (TextureAtlas.width self = 0 \/ TextureAtlas.height self = 0)
     | OverflowError =>
         Texture.frames tex <> [] /\ TextureAtlas.width self <> 0
     | _ => False
     end).
Proof.
  split; [| split].
  - split.
    + intros [d E]. unfold TextureAtlas.to_dict in E.
      apply (to_dict_entries self h) in E as [Hall _].
      eapply Forall_impl; [exact Hall |]. simpl. intros t [b Hb].
      rewrite bounds_failure in Hb.
      by destruct (texture_failure self h t).
    + intros Hall.
      destruct (to_dict_total self h ∅ (TextureAtlas.textures self))
        as (d & E & _); [| by exists d].
      eapply Forall_impl; [exact Hall |]. simpl. intros t Ht.
      by apply bounds_no_failure.
  - intros before tex after e Htex Hall Hfail.
    unfold TextureAtlas.to_dict. rewrite Htex.
    by apply to_dict_first_failure.
  - intros tex e. unfold texture_failure.
    destruct (Texture.frames tex) as [| frame0 rest]; [by intros [= <-] |].
    cbv zeta.
    destruct (Z.eqb_spec (TextureAtlas.width self) 0);
      [intros [= <-]; split; [done | by left] |].
    destruct (too_large (Frame.x _) _); [by intros [= <-] |].
    destruct (Z.eqb_spec (TextureAtlas.height self) 0);
      [intros [= <-]; split; [done | by right] |].
    destruct (too_large (Frame.y _) _); [by intros [= <-] |].
    destruct (too_large (_ + Frame.width _) _); [by intros [= <-] |].
    by destruct (too_large (_ + Z.min _ _) _); [intros [= <-] |].
Qed.

(** X11.  The keys of the table of [to_dict] are the names of the textures
    of the atlas, and every entry is the tuple computed for a texture with
    that name. *)
Theorem to_dict_keys self h d :
  TextureAtlas.to_dict self h = Ok d ->
  forall k,
    (is_Some (d !! k) <-> k ∈ Texture.name <$> TextureAtlas.textures self) /\
    forall b, d !! k = Some b ->
      exists t, t ∈ TextureAtlas.textures self /\ Texture.name t = k /\
                TextureAtlas.bounds self h t = Ok b.
Proof.
  intros Ed k.
  unfold TextureAtlas.to_dict in Ed.
  pose proof (to_dict_entries self h _ _ _ Ed) as [Hall Hent].
  assert (forall b, d !! k = Some b ->
            exists t, t ∈ TextureAtlas.textures self /\ Texture.name t = k /\
                      TextureAtlas.bounds self h t = Ok b) as Hfrom.
  { intros b Hb. destruct (Hent k b Hb) as [H0 | Ht]; [| done].
    by rewrite lookup_empty in H0. }
  split; [| done]. split.
  - intros [b Hb]. destruct (Hfrom b Hb) as (t & Hin & <- & _).
    apply list_elem_of_fmap. by exists t.
  - intros (t & -> & Hin)%list_elem_of_fmap.
    destruct (to_dict_total self h ∅ (TextureAtlas.textures self) Hall)
      as (d' & Ed' & Hd').
    rewrite Ed in Ed'. injection Ed' as <-.
    exact (proj1 (Forall_forall _ _) Hd' _ Hin).
Qed.

(** ** The returned size and pixel buffer *)

Lemma attempt_size size textures h res atlas h' :
  attempt size textures h = (res, atlas, h') ->
  TextureAtlas.width atlas = size /\ TextureAtlas.height atlas = size.
Proof.
  intros E. unfold attempt in E.
  apply pack_textures_pack_all in E as (refused & E & _).
  destruct (pack_all_bounds _ _ _ _ _ _ E) as (_ & _ & Hw & Hh).
  unfold TextureAtlas.width, TextureAtlas.height. by rewrite Hw, Hh.
Qed.

Lemma pack_loop_size fuel size textures h atlas h' :
  pack_loop fuel size textures h = Some (Ok (atlas, h')) ->
  exists turns : nat,
    (turns < fuel)%nat /\
    TextureAtlas.width atlas = size * 2 ^ Z.of_nat turns /\
    TextureAtlas.height atlas = size * 2 ^ Z.of_nat turns.
Proof.
  revert size h. induction fuel as [| fuel IH]; intros size h; simpl; [done |].
  destruct (attempt size textures h) as [[res a1] h1] eqn:Ea.
  destruct res as [[] | e].
  - intros [= <- <-]. exists 0%nat.
    destruct (attempt_size _ _ _ _ _ _ Ea) as [Hw Hh].
    rewrite Z.mul_1_r. split; [lia | done].
  - destruct e; try done. intros E.
    destruct (IH _ _ E) as (turns & Hlt & Hw & Hh).
    exists (S turns). rewrite Nat2Z.inj_succ, Z.pow_succ_r by lia.
    split; [lia |]. rewrite Hw, Hh. split; ring.
Qed.

Lemma build_size {K} fs (texture_dict : list (K * string)) fuel atlas h :
  build fs texture_dict fuel = Some (Ok (atlas, h)) ->
  exists textures h0 size0 (turns : nat),
    prepare fs texture_dict = Ok (textures, h0, size0) /\
    1 <= size0 /\ (turns < fuel)%nat /\
    TextureAtlas.width atlas = size0 * 2 ^ Z.of_nat turns /\
    TextureAtlas.height atlas = size0 * 2 ^ Z.of_nat turns.
Proof.
  unfold build.
  destruct (prepare fs texture_dict) as [[[textures h0] size0] |] eqn:Ep; [| done].
  intros E. exists textures, h0, size0.
  pose proof (prepare_size _ _ _ _ _ Ep) as Hsize.
  pose proof (initial_size_pos (max_frame_height h0) (max_frame_width h0)
                (total_pixel_area h0)) as Hpos.
  rewrite <- Hsize in Hpos.
  destruct (pack_loop_size _ _ _ _ _ _ E) as (turns & Hlt & Hw & Hh).
  by exists turns.
Qed.

Lemma paste_shape c im x y :
  Canvas.width (Canvas.paste c im x y) = Canvas.width c /\
  Canvas.height (Canvas.paste c im x y) = Canvas.height c /\
  length (Canvas.data (Canvas.paste c im x y)) = length (Canvas.data c).
Proof. unfold Canvas.paste. simpl. by rewrite length_imap. Qed.

(** [generate] draws the frames of the textures one after the other. *)
Lemma generate_frames atlas h :
  TextureAtlas.generate atlas h =
    foldl (fun out f => draw (h !!! f) out)
      (Canvas.new (TextureAtlas.width atlas) (TextureAtlas.height atlas))
      (frames_of (TextureAtlas.textures atlas)).
Proof.
  unfold TextureAtlas.generate.
  generalize (Canvas.new (TextureAtlas.width atlas) (TextureAtlas.height atlas)).
  induction (TextureAtlas.textures atlas) as [| t ts IH]; intros c; [done |].
  unfold frames_of. simpl. rewrite foldl_app. apply IH.
Qed.

Lemma draw_all_shape (h : heap) (frames : list addr) c :
  let c' := foldl (fun out f => draw (h !!! f) out) c frames in
  Canvas.width c' = Canvas.width c /\
  Canvas.height c' = Canvas.height c /\
  length (Canvas.data c') = length (Canvas.data c).
Proof.
  revert c. induction frames as [| f rest IH]; intros c; simpl; [done |].
  destruct (IH (draw (h !!! f) c)) as (-> & -> & ->).
  apply paste_shape.
Qed.

Lemma ravel_length c : length (Canvas.ravel c) = (4 * length (Canvas.data c))%nat.
Proof.
  unfold Canvas.ravel. induction (Canvas.data c) as [| px l IH]; simpl; [done |].
  rewrite IH. lia.
Qed.

(** X12.  The atlas that [create_atlas] returns is a square whose side is
    the first candidate size doubled some number of times (less often than
    the loop was allowed to turn), and the pixel buffer has four bytes for
    each of its [width * height] pixels. *)
Theorem returned_size_and_buffer {K} fs (texture_dict : list (K * string)) fuel
    texture_atlas texture_bounds width height :
  create_atlas fs texture_dict fuel =
    Some (Ok (texture_atlas, texture_bounds, width, height)) ->
  width = height /\
  Z.of_nat (length texture_atlas) = width * height * 4 /\
  exists textures h0 size0 (turns : nat),
    prepare fs texture_dict = Ok (textures, h0, size0) /\
    (turns < fuel)%nat /\
    width = size0 * 2 ^ Z.of_nat turns.
Proof.
  intros E.
  destruct (create_atlas_inv _ _ _ _ _ _ _ E)
    as (atlas & h & d & Eb & _ & _ & -> & -> & ->).
  destruct (build_size _ _ _ _ _ Eb)
    as (ts & h0 & size0 & turns & Ep & Hpos & Hlt & Hw & Hh).
  assert (0 < 2 ^ Z.of_nat turns) as Hpow by (apply Z.pow_pos_nonneg; lia).
  split; [congruence |]. split.
  - rewrite ravel_length, generate_frames.
    destruct (draw_all_shape h (frames_of (TextureAtlas.textures atlas))
                (Canvas.new (TextureAtlas.width atlas) (TextureAtlas.height atlas)))
      as (_ & _ & ->).
    unfold Canvas.new. cbn [Canvas.data]. rewrite length_replicate.
    assert (0 <= TextureAtlas.width atlas * TextureAtlas.height atlas) by nia.
    lia.
  - by exists ts, h0, size0, turns.
Qed.

(** ** The pixels of the generated image *)

Lemma pixel_at_paste c im x y col row :
  0 <= col < Canvas.width c -> 0 <= row < Canvas.height c ->
  length (Canvas.data c) = Z.to_nat (Canvas.width c * Canvas.height c) ->
  pixel_at (Canvas.paste c im x y) col row =
    if (x <=? col) && (col <? x + Image.width im)
       && (y <=? row) && (row <? y + Image.height im)
    then Some (Image.getpixel im (col - x) (row - y))
    else pixel_at c col row.
Proof.
  intros Hcol Hrow Hlen. unfold pixel_at, Canvas.paste. cbn [Canvas.data Canvas.width].
  set (W := Canvas.width c) in *. set (H := Canvas.height c) in *.
  rewrite list_lookup_imap.
  assert (Z.of_nat (Z.to_nat (row * W + col)) = row * W + col) as Hk by nia.
  assert ((row * W + col) mod W = col) as Hmod.
  { rewrite Z.add_comm, Z_mod_plus_full. apply Z.mod_small. lia. }
  assert ((row * W + col) / W = row) as Hdiv.
  { rewrite Z.add_comm, Z.div_add by lia. rewrite Z.div_small by lia. lia. }
  destruct (Canvas.data c !! Z.to_nat (row * W + col)) as [old |] eqn:Hold.
  - simpl. rewrite Hk, Hmod, Hdiv. by destruct (_ && _).
  - apply lookup_ge_None in Hold. rewrite Hlen in Hold. nia.
Qed.

Lemma covers_test (f : Frame.t) col row :
  Frame.width f = Image.width (Frame.image f) ->
  Frame.height f = Image.height (Frame.image f) ->
  (Frame.x f <=? col) && (col <? Frame.x f + Image.width (Frame.image f))
  && (Frame.y f <=? row) && (row <? Frame.y f + Image.height (Frame.image f))
  = true <-> covers f col row.
Proof.
  intros <- <-. unfold covers.
  rewrite !andb_true_iff, !Z.leb_le, !Z.ltb_lt. tauto.
Qed.

Section Drawing.
Variable h : heap.
Variables col row : Z.

Let draw_all (c : Canvas.t) (frames : list addr) : Canvas.t :=
  foldl (fun out f => draw (h !!! f) out) c frames.

Let sized (c : Canvas.t) : Prop :=
  0 <= col < Canvas.width c /\ 0 <= row < Canvas.height c /\
  length (Canvas.data c) = Z.to_nat (Canvas.width c * Canvas.height c).

Let matches (f : addr) : Prop :=
  Frame.width (h !!! f) = Image.width (Frame.image (h !!! f)) /\
  Frame.height (h !!! f) = Image.height (Frame.image (h !!! f)).

Lemma draw_sized c f : sized c -> sized (draw (h !!! f) c).
Proof.
  unfold sized, draw. intros (? & ? & ?).
  destruct (paste_shape c (Frame.image (h !!! f)) (Frame.x (h !!! f))
              (Frame.y (h !!! f))) as (-> & -> & ->).
  done.
Qed.

(** Frames that do not cover a pixel leave it as it is. *)
Lemma draw_all_outside c frames :
  sized c ->
  Forall matches frames ->
  Forall (fun f => ~ covers (h !!! f) col row) frames ->
  pixel_at (draw_all c frames) col row = pixel_at c col row.
Proof.
  revert c. induction frames as [| f rest IH]; intros c Hc Hm Hout; [done |].
  apply Forall_cons in Hm as [[Hw Hh] Hm].
  apply Forall_cons in Hout as [Hf Hout].
  unfold draw_all in *. cbn [foldl].
  rewrite IH; [| by apply draw_sized | done | done].
  destruct Hc as (Hcol & Hrow & Hlen).
  unfold draw. rewrite pixel_at_paste by done.
  destruct (_ && _) eqn:Htest; [| done].
  by apply covers_test in Htest.
Qed.

(** A frame that covers a pixel leaves its own pixel there, when no frame
    drawn after it covers the pixel. *)
Lemma draw_all_inside c before f after :
  sized c ->
  matches f -> Forall matches after ->
  covers (h !!! f) col row ->
  Forall (fun g => ~ covers (h !!! g) col row) after ->
  pixel_at (draw_all c (before ++ f :: after)) col row =
    Some (Image.getpixel (Frame.image (h !!! f))
            (col - Frame.x (h !!! f)) (row - Frame.y (h !!! f))).
Proof.
  intros Hc [Hw Hh] Hm Hcov Hout. unfold draw_all in *.
  rewrite foldl_app. cbn [foldl].
  assert (sized (foldl (fun out g => draw (h !!! g) out) c before)) as Hc'.
  { clear -Hc. revert c Hc. induction before as [| g l IH]; intros c Hc; [done |].
    simpl. apply IH. by apply draw_sized. }
  rewrite draw_all_outside; [| by apply draw_sized | done | done].
  destruct Hc' as (Hcol & Hrow & Hlen).
  unfold draw. rewrite pixel_at_paste by done.
  apply (covers_test _ _ _ Hw Hh) in Hcov. by rewrite Hcov.
Qed.
End Drawing.

Lemma prepare_frames_match {K} fs (texture_dict : list (K * string)) textures h size :
  prepare fs texture_dict = Ok (textures, h, size) ->
  Forall (fun f => Frame.width f = Image.width (Frame.image f) /\
                   Frame.height f = Image.height (Frame.image f)) h.
Proof.
  intros E. apply prepare_spec in E as (imgs & _ & -> & _).
  apply Forall_lookup. intros i f Hf.
  by apply lookup_zip_with_Some in Hf as (path & img & -> & _ & _).
Qed.

Lemma frames_match_same h h' :
  same_frames h h' ->
  Forall (fun f => Frame.width f = Image.width (Frame.image f) /\
                   Frame.height f = Image.height (Frame.image f)) h ->
  Forall (fun f => Frame.width f = Image.width (Frame.image f) /\
                   Frame.height f = Image.height (Frame.image f)) h'.
Proof.
  intros Hs Hall. apply Forall_lookup. intros i g Hg.
  destruct (Forall2_lookup_r _ _ _ _ _ Hs Hg) as (f & Hf & Hw & Hh & _ & Hi).
  destruct (proj1 (Forall_lookup _ _) Hall _ _ Hf) as [Hfw Hfh].
  split; congruence.
Qed.

(** X13.  In the image that [generate] makes of the atlas a build ends
    with, every pixel that a frame covers is the pixel of that frame's
    image, taken relative to the position of the frame, and every pixel that
    no frame covers is zero. *)
Theorem generated_pixels {K} fs (texture_dict : list (K * string)) fuel
    atlas h col row :
  decodes_ok fs ->
  build fs texture_dict fuel = Some (Ok (atlas, h)) ->
  0 <= col < TextureAtlas.width atlas ->
  0 <= row < TextureAtlas.height atlas ->
  (forall p : addr,
      p ∈ frames_of (TextureAtlas.textures atlas) ->
      covers (h !!! p) col row ->
      pixel_at (TextureAtlas.generate atlas h) col row =
        Some (Image.getpixel (Frame.image (h !!! p))
                (col - Frame.x (h !!! p)) (row - Frame.y (h !!! p)))) /\
  ((forall p : addr,
       p ∈ frames_of (TextureAtlas.textures atlas) ->
       ~ covers (h !!! p) col row) ->
   pixel_at (TextureAtlas.generate atlas h) col row = Some transparent).
Proof.
  intros Hfs Eb Hcol Hrow.
  destruct (build_success _ _ _ _ _ Hfs Eb)
    as (ts & h0 & size0 & turns & Ep & Hsame & L & Hperm & Hts & Hw & Hh).
  pose proof (frames_match_same _ _ Hsame (prepare_frames_match _ _ _ _ _ Ep))
    as Hmatch.
  destruct (prepare_frames _ _ _ _ _ Ep) as [_ Hseq].
  rewrite <- Hts in Hperm, Hseq.
  assert (NoDup (frames_of (TextureAtlas.textures atlas))) as Hnd
    by (rewrite Hseq; apply NoDup_seq).
  assert (forall p : addr, p ∈ frames_of (TextureAtlas.textures atlas) ->
            Frame.width (h !!! p) = Image.width (Frame.image (h !!! p)) /\
            Frame.height (h !!! p) = Image.height (Frame.image (h !!! p)))
    as Hm.
  { intros p Hp. rewrite Hseq in Hp. apply elem_of_seq in Hp.
    rewrite <- (same_frames_length _ _ Hsame) in Hp.
    assert (h !! p = Some (h !!! p)) as Hl
      by (apply list_lookup_lookup_total_lt; lia).
    exact (proj1 (Forall_lookup _ _) Hmatch _ _ Hl). }
  assert (0 <= TextureAtlas.width atlas * TextureAtlas.height atlas) by nia.
  assert ((0 <= col < Canvas.width
             (Canvas.new (TextureAtlas.width atlas) (TextureAtlas.height atlas))) /\
          (0 <= row < Canvas.height
             (Canvas.new (TextureAtlas.width atlas) (TextureAtlas.height atlas))) /\
          length (Canvas.data
             (Canvas.new (TextureAtlas.width atlas) (TextureAtlas.height atlas))) =
          Z.to_nat (Canvas.width
             (Canvas.new (TextureAtlas.width atlas) (TextureAtlas.height atlas)) *
           Canvas.height
             (Canvas.new (TextureAtlas.width atlas) (TextureAtlas.height atlas))))
    as Hsized.
  { unfold Canvas.new. cbn [Canvas.width Canvas.height Canvas.data].
    by rewrite length_replicate. }
  rewrite generate_frames. split.
  - intros p Hp Hcov.
    destruct (list_elem_of_split _ _ Hp) as (before & after & Hsplit).
    rewrite Hsplit in Hnd, Hm |- *.
    apply draw_all_inside; try done.
    + apply Hm. apply elem_of_app. right. apply elem_of_cons. by left.
    + apply Forall_forall. intros g Hg. apply Hm.
      apply elem_of_app. right. apply elem_of_cons. by right.
    + apply Forall_forall. intros g Hg Hcovg.
      apply NoDup_app in Hnd as (_ & _ & Hnd).
      apply NoDup_cons in Hnd as [Hnot _].
      assert (g <> p) as Hne by (by intros ->).
      apply (layout_disjoint h (TextureAtlas.region atlas) g p L);
        [| | done | by exists col, row].
      * rewrite Hperm, Hsplit. apply elem_of_app. right. apply elem_of_cons. by right.
      * by rewrite Hperm.
  - intros Hnone.
    rewrite draw_all_outside; try done.
    + unfold pixel_at, Canvas.new. cbn [Canvas.width Canvas.data].
      apply lookup_replicate_2. nia.
    + apply Forall_forall. intros g Hg. by apply Hm.
    + apply Forall_forall. intros g Hg. by apply Hnone.
Qed.

(** ** The size that the loop stops at *)

Lemma same_frames_sym h h' : same_frames h h' -> same_frames h' h.
Proof.
  intros Hs. apply Forall2_flip. eapply Forall2_impl; [exact Hs |].
  simpl. intros f g (? & ? & ? & ?). auto.
Qed.

(** Whether and where a frame is packed depends on the widths and heights of
    the frames only, not on the positions they hold. *)
Lemma pack_congr r p h1 h2 ok r' h1' :
  same_frames h1 h2 ->
  PackRegion.pack r p h1 = (ok, r', h1') ->
  exists h2', PackRegion.pack r p h2 = (ok, r', h2') /\ same_frames h1' h2'.
Proof.
  revert h1 h2 ok r' h1'.
  induction r as [x y w hh | x y w hh q s1 IH1 s2 IH2];
    intros h1 h2 ok r' h1' Hs; simpl.
  - destruct (same_frames_lookup h1 h2 p Hs) as (Hw & Hh & _).
    unfold Frame.width, Frame.height in *. simpl. rewrite Hw, Hh.
    destruct (_ || _); intros [= <- <- <-]; eexists; (split; [reflexivity |]).
    + done.
    + eapply same_frames_trans; [apply same_frames_sym, same_frames_insert |].
      eapply same_frames_trans; [exact Hs |]. apply same_frames_insert.
  - destruct (PackRegion.pack s1 p h1) as [[ok1 s1'] h11] eqn:E1.
    destruct (IH1 _ _ _ _ _ Hs E1) as (h21 & -> & Hs1).
    destruct ok1.
    + intros [= <- <- <-]. by exists h21.
    + destruct (PackRegion.pack s2 p h11) as [[ok2 s2'] h12] eqn:E2.
      destruct (IH2 _ _ _ _ _ Hs1 E2) as (h22 & -> & Hs2).
      intros [= <- <- <-]. by exists h22.
Qed.

Lemma pack_all_congr r frames h1 h2 refused r' h1' :
  same_frames h1 h2 ->
  pack_all r frames h1 = (refused, r', h1') ->
  exists h2', pack_all r frames h2 = (refused, r', h2') /\ same_frames h1' h2'.
Proof.
  revert r h1 h2. induction frames as [| f rest IH]; intros r h1 h2 Hs;
    cbn [pack_all].
  - intros [= <- <- <-]. by exists h2.
  - destruct (PackRegion.pack r f h1) as [[ok r1] h11] eqn:E1.
    destruct (pack_congr _ _ _ _ _ _ _ Hs E1) as (h21 & -> & Hs1).
    destruct ok; [by apply IH |].
    intros [= <- <- <-]. by exists h21.
Qed.

Lemma attempt_raise_congr size textures h1 h2 msg atlas h1' :
  same_frames h1 h2 ->
  attempt size textures h1 = (Raise (AtlasTooSmall msg), atlas, h1') ->
  exists msg' atlas' h2',
    attempt size textures h2 = (Raise (AtlasTooSmall msg'), atlas', h2').
Proof.
  intros Hs E. unfold attempt in *.
  apply pack_textures_pack_all in E as (refused & E & Hres).
  destruct refused as [f |]; [| done].
  destruct (pack_all_congr _ _ _ _ _ _ _ Hs E) as (h2' & E2 & _).
  destruct (pack_textures (TextureAtlas.init size size) textures h2)
    as [[res2 a2] h2''] eqn:Et.
  destruct (pack_textures_pack_all _ _ _ _ _ _ Et) as (refused2 & E2' & ->).
  rewrite E2 in E2'. injection E2' as <- _ _. simpl. by eexists _, _, _.
Qed.

Lemma pack_loop_first_fit fuel size textures h atlas h' :
  pack_loop fuel size textures h = Some (Ok (atlas, h')) ->
  exists turns : nat,
    TextureAtlas.width atlas = size * 2 ^ Z.of_nat turns /\
    forall k : nat, (k < turns)%nat ->
      exists msg a1 h1,
        attempt (size * 2 ^ Z.of_nat k) textures h =
          (Raise (AtlasTooSmall msg), a1, h1).
Proof.
  revert size h. induction fuel as [| fuel IH]; intros size h; simpl; [done |].
  destruct (attempt size textures h) as [[res a1] h1] eqn:Ea.
  destruct res as [[] | e].
  - intros [= <- <-]. exists 0%nat.
    destruct (attempt_size _ _ _ _ _ _ Ea) as [Hw _].
    rewrite Z.mul_1_r. split; [done |]. intros k Hk. lia.
  - destruct e; try done. intros E.
    destruct (IH _ _ E) as (turns & Hw & Hfail).
    exists (S turns). rewrite Nat2Z.inj_succ, Z.pow_succ_r by lia.
    split; [rewrite Hw; ring |].
    intros [| k] Hk.
    + rewrite Z.mul_1_r. by eexists _, _, _.
    + destruct (Hfail k ltac:(lia)) as (m & a2 & h2 & Ek).
      rewrite Nat2Z.inj_succ, Z.pow_succ_r by lia.
      replace (size * (2 * 2 ^ Z.of_nat k)) with (size * 2 * 2 ^ Z.of_nat k) by ring.
      eapply attempt_raise_congr; [| exact Ek].
      apply same_frames_sym. by eapply attempt_same_frames.
Qed.

(** X14.  The side of the atlas that a build ends with is the first of the
    sizes [size0], [2*size0], [4*size0], ... (with [size0] the first
    candidate size) at which every texture can be packed: at each smaller
    size of the sequence the attempt raises [AtlasTooSmall]. *)
Theorem first_fitting_size {K} fs (texture_dict : list (K * string)) fuel
    atlas h :
  build fs texture_dict fuel = Some (Ok (atlas, h)) ->
  exists textures h0 size0 (turns : nat),
    prepare fs texture_dict = Ok (textures, h0, size0) /\
    TextureAtlas.width atlas = size0 * 2 ^ Z.of_nat turns /\
    forall k : nat, (k < turns)%nat ->
      exists msg a1 h1,
        attempt (size0 * 2 ^ Z.of_nat k) textures h0 =
          (Raise (AtlasTooSmall msg), a1, h1).
Proof.
  unfold build.
  destruct (prepare fs texture_dict) as [[[textures h0] size0] |] eqn:Ep; [| done].
  intros E. exists textures, h0, size0.
  destruct (pack_loop_first_fit _ _ _ _ _ _ E) as (turns & Hw & Hfail).
  by exists turns.
Qed.

(** ** Frames and UV entries stay inside the atlas *)

Lemma build_region_origin {K} fs (texture_dict : list (K * string)) fuel atlas h :
  build fs texture_dict fuel = Some (Ok (atlas, h)) ->
  PackRegion.x (TextureAtlas.region atlas) = 0 /\
  PackRegion.y (TextureAtlas.region atlas) = 0.
Proof.
  unfold build.
  destruct (prepare fs texture_dict) as [[[textures h0] size0] |]; [| done].
  intros E. apply pack_loop_success in E as (turns & h1 & _ & E).
  unfold attempt in E. apply pack_textures_pack_all in E as (refused & E & _).
  by destruct (pack_all_bounds _ _ _ _ _ _ E) as (-> & -> & _).
Qed.

Lemma build_frames_within {K} fs (texture_dict : list (K * string)) fuel
    atlas h (p : addr) :
  decodes_ok fs ->
  build fs texture_dict fuel = Some (Ok (atlas, h)) ->
  p ∈ frames_of (TextureAtlas.textures atlas) ->
  within (h !!! p) 0 0 (TextureAtlas.width atlas) (TextureAtlas.height atlas) /\
  0 <= Frame.width (h !!! p) /\ 0 <= Frame.height (h !!! p).
Proof.
  intros Hfs Eb Hp.
  destruct (build_success _ _ _ _ _ Hfs Eb)
    as (ts & h0 & size0 & turns & _ & _ & L & Hperm & <- & _ & _).
  destruct (build_region_origin _ _ _ _ _ Eb) as [Hx Hy].
  rewrite <- Hperm in Hp.
  pose proof (layout_within h _ p L Hp) as Hin.
  by rewrite Hx, Hy in Hin.
Qed.

(** X15.  In the atlas that a build ends with, every frame lies inside the
    image: [0 <= x], [0 <= y], [x + width <= atlas width] and
    [y + height <= atlas height]. *)
Theorem frames_inside_atlas {K} fs (texture_dict : list (K * string)) fuel
    atlas h (p : addr) :
  decodes_ok fs ->
  build fs texture_dict fuel = Some (Ok (atlas, h)) ->
  p ∈ frames_of (TextureAtlas.textures atlas) ->
  0 <= Frame.x (h !!! p) /\ 0 <= Frame.y (h !!! p) /\
  Frame.x (h !!! p) + Frame.width (h !!! p) <= TextureAtlas.width atlas /\
  Frame.y (h !!! p) + Frame.height (h !!! p) <= TextureAtlas.height atlas.
Proof.
  intros Hfs Eb Hp.
  destruct (build_frames_within _ _ _ _ _ p Hfs Eb Hp) as [(? & ? & ? & ?) _].
  lia.
Qed.

Lemma truediv_mono a a' b :
  a <= a' -> 0 < b -> (inject_Z a / inject_Z b <= inject_Z a' / inject_Z b)%Q.
Proof.
  intros Ha Hb. unfold Qdiv. apply Qmult_le_compat_r.
  - by rewrite <- Zle_Qle.
  - apply Qinv_le_0_compat. change 0%Q with (inject_Z 0).
    rewrite <- Zle_Qle. lia.
Qed.

Lemma truediv_unit a b : 0 <= a <= b -> 0 < b -> in_unit (inject_Z a / inject_Z b).
Proof.
  intros [H0 Hab] Hb. split.
  - unfold Qdiv. apply Qmult_le_0_compat.
    + change 0%Q with (inject_Z 0). rewrite <- Zle_Qle. lia.
    + apply Qinv_le_0_compat. change 0%Q with (inject_Z 0).
      rewrite <- Zle_Qle. lia.
  - eapply Qle_trans; [apply (truediv_mono a b b); lia |].
    unfold Qdiv. rewrite Qmult_inv_r; [apply Qle_refl |].
    change 0%Q with (inject_Z 0). rewrite inject_Z_injective. lia.
Qed.

(** X16.  Every entry [(u0, v0, u1, v1)] of the table that [create_atlas]
    returns is made of numbers between 0 and 1, with [u0 <= u1] and
    [v0 <= v1]. *)
Theorem returned_uv_in_unit_square {K} fs (texture_dict : list (K * string))
    fuel texture_atlas texture_bounds width height k u0 v0 u1 v1 :
  decodes_ok fs ->
  create_atlas fs texture_dict fuel =
    Some (Ok (texture_atlas, texture_bounds, width, height)) ->
  (k, (u0, v0, u1, v1)) ∈ texture_bounds ->
  in_unit u0 /\ in_unit v0 /\ in_unit u1 /\ in_unit v1 /\
  (u0 <= u1)%Q /\ (v0 <= v1)%Q.
Proof.
  intros Hfs E Hin.
  destruct (create_atlas_inv _ _ _ _ _ _ _ E)
    as (atlas & h & d & Eb & Ed & Em & _ & -> & ->).
  apply list_elem_of_lookup in Hin as [i Hi].
  assert (exists kp, texture_dict !! i = Some kp) as [[k' path] Hkp].
  { apply lookup_lt_is_Some. rewrite <- (mapM_result_length _ _ _ Em).
    by eapply lookup_lt_Some. }
  destruct (mapM_result_lookup _ _ _ Em _ _ Hkp) as (y & Hy & Hb).
  pose proof (eq_trans (eq_sym Hi) Hb) as Heq. injection Heq as <-.
  simpl in Hy.
  destruct (d !! path) as [entry |] eqn:Hd; [| done].
  injection Hy as _ ->.
  unfold TextureAtlas.to_dict in Ed.
  destruct (to_dict_entries atlas h _ _ _ Ed) as [_ Hent].
  destruct (Hent _ _ Hd) as [H0 | (t & Ht & _ & Hbt)];
    [by rewrite lookup_empty in H0 |].
  apply bounds_ok in Hbt as (f0 & rest & Hf & _ & _ & Huv).
  assert (f0 ∈ frames_of (TextureAtlas.textures atlas)) as Hf0.
  { unfold frames_of. apply list_elem_of_bind. exists t. split; [| done].
    rewrite Hf. apply elem_of_cons. by left. }
  destruct (build_frames_within _ _ _ _ _ f0 Hfs Eb Hf0)
    as [(Hx & Hy & Hxw & Hyh) [Hw Hh]].
  destruct (build_size _ _ _ _ _ Eb)
    as (ts & h0 & size0 & turns & _ & Hpos & _ & HW & HH).
  assert (0 < 2 ^ Z.of_nat turns) as Hpow by (apply Z.pow_pos_nonneg; lia).
  assert (0 < TextureAtlas.width atlas) by nia.
  assert (0 < TextureAtlas.height atlas) by nia.
  unfold uv_formula in Huv. injection Huv as -> -> -> ->.
  repeat split; try (apply truediv_unit; lia); try (apply truediv_mono; lia);
    apply truediv_unit || apply truediv_mono; lia.
Qed.

(** ** A single image *)

Lemma single_prepare {K} fs (k : K) path img :
  fs path = Some img ->
  0 <= Image.width img -> 0 <= Image.height img ->
  Image.height img * Image.width img < float_limit ->
  prepare fs [(k, path)] =
    Ok ([Texture.mk path [0%nat]], [frame_of_image path img],
        initial_size (Image.height img) (Image.width img)
          (Image.height img * Image.width img)).
Proof.
  intros Hfs Hw Hh Harea. unfold prepare. simpl.
  unfold Frame.init. rewrite Hfs. simpl.
  unfold sorted_reverse, perimeter_key, measure. simpl.
  unfold frame_of_image, Frame.height, Frame.width. simpl.
  rewrite (proj2 (Z.leb_gt _ _)) by lia.
  rewrite !Z.max_l by lia. reflexivity.
Qed.

Lemma single_loop {K} (k : K) path img size fuel :
  0 <= Image.width img <= size -> 0 <= Image.height img <= size -> 0 < size ->
  let f := frame_of_image path img in
  exists atlas,
    pack_loop (S fuel) size [Texture.mk path [0%nat]] [f] = Some (Ok (atlas, [f])) /\
    finish [(k, path)] atlas [f] =
      Ok (Canvas.ravel (draw f (Canvas.new size size)),
          [(k, uv_formula f size size)], size, size).
Proof.
  intros Hw Hh Hs f. subst f. unfold frame_of_image. eexists. split.
  - cbn [pack_loop]. unfold attempt. cbn [pack_textures].
    unfold TextureAtlas.pack.
    cbn [TextureAtlas.pack_frames Texture.frames TextureAtlas.region
         TextureAtlas.init PackRegion.init PackRegion.pack].
    cbn [lookup_total list_lookup_total Frame.width Frame.height Frame.base
         Packable.init Packable.width Packable.height].
    destruct (Z.gtb_spec (Image.width img) size); [lia |].
    destruct (Z.gtb_spec (Image.height img) size); [lia |].
    reflexivity.
  - unfold finish, TextureAtlas.to_dict.
    simpl TextureAtlas.textures. cbn [foldl]. unfold_result.
    rewrite (bounds_total _ _ _ 0%nat []).
    all: unfold TextureAtlas.width, TextureAtlas.height;
      cbn [TextureAtlas.region PackRegion.width PackRegion.height
           lookup_total list_lookup_total Frame.x Frame.y Frame.width
           Frame.height Frame.base Frame.set_x Frame.set_y Packable.set_x
           Packable.set_y Packable.init Packable.x Packable.y Packable.width
           Packable.height Texture.frames Texture.name].
    2-8: done || lia || (apply fits_unit; lia).
    simpl. rewrite lookup_insert_eq. reflexivity.
Qed.

(** X17.  For a mapping with one key whose image can be opened (and whose
    area is not too large for a float), the first turn of the loop
    succeeds: the atlas has the first candidate size, the frame sits at
    [(0, 0)], and the table holds the one entry
    [(0, 0, w/size, min(h, w)/size)]. *)
Theorem single_image {K} fs (k : K) path img fuel :
  fs path = Some img ->
  0 <= Image.width img -> 0 <= Image.height img ->
  Image.height img * Image.width img < float_limit ->
  let size := initial_size (Image.height img) (Image.width img)
                (Image.height img * Image.width img) in
  let f := frame_of_image path img in
  create_atlas fs [(k, path)] (S fuel) =
    Some (Ok (Canvas.ravel (draw f (Canvas.new size size)),
              [(k, uv_formula f size size)], size, size)).
Proof.
  intros Hfs Hw Hh Harea size f.
  pose proof (initial_size_pos (Image.height img) (Image.width img)
                (Image.height img * Image.width img)) as Hpos.
  fold size in Hpos.
  assert (Image.width img <= size /\ Image.height img <= size) as [Hws Hhs].
  { unfold size, initial_size. lia. }
  destruct (single_loop k path img size fuel ltac:(lia) ltac:(lia) ltac:(lia))
    as (atlas & Hloop & Hfin).
  unfold create_atlas, build.
  rewrite (single_prepare fs k path img Hfs Hw Hh Harea). fold size.
  by rewrite Hloop, Hfin.
Qed.

(** ** How large the atlas can get *)

Lemma total_frame_width_same h h' :
  same_frames h h' -> total_frame_width h' = total_frame_width h.
Proof.
  unfold total_frame_width. induction 1 as [| f g l l' (Hw & _) _ IH]; [done |].
  rewrite !fmap_cons. cbn [foldr]. rewrite IH. lia.
Qed.

Lemma prepare_roomy {K} fs (texture_dict : list (K * string)) textures h size s :
  decodes_ok fs ->
  prepare fs texture_dict = Ok (textures, h, size) ->
  size <= s -> total_frame_width h <= s ->
  roomy s h (frames_of textures).
Proof.
  intros Hfs Ep Hs Hw.
  destruct (prepare_frames _ _ _ _ _ Ep) as [_ Hperm].
  pose proof (prepare_size _ _ _ _ _ Ep) as Hsize.
  split.
  - rewrite (foldr_add_perm _ _ (fmap_Permutation _ _ _ Hperm)).
    by rewrite (fmap_lookup_seq Frame.width [] h).
  - apply Forall_forall. intros f Hf. rewrite Hperm in Hf.
    apply elem_of_seq in Hf.
    assert (h !! f = Some (h !!! f)) as Hl
      by (apply list_lookup_lookup_total_lt; lia).
    assert (Frame.height (h !!! f) <= max_frame_height h) as Hh.
    { apply foldr_max_ge, list_elem_of_fmap. exists (h !!! f).
      split; [done |]. by eapply list_elem_of_lookup_2. }
    unfold initial_size in Hsize. lia.
Qed.

(** X18.  The atlas that a build ends with either has the first candidate
    size, or its side is less than twice the sum of the widths of all the
    frames: the loop stops doubling, at the latest, at the first size in
    which the frames fit side by side. *)
Theorem atlas_side_bound {K} fs (texture_dict : list (K * string)) fuel
    atlas h :
  decodes_ok fs ->
  build fs texture_dict fuel = Some (Ok (atlas, h)) ->
  exists textures h0 size0,
    prepare fs texture_dict = Ok (textures, h0, size0) /\
    (TextureAtlas.width atlas = size0 \/
     TextureAtlas.width atlas < 2 * total_frame_width h).
Proof.
  intros Hfs Eb.
  destruct (build_success _ _ _ _ _ Hfs Eb)
    as (ts & h0 & size0 & _ & Ep & Hsame & _).
  exists ts, h0, size0. split; [done |].
  rewrite (total_frame_width_same _ _ Hsame).
  unfold build in Eb. rewrite Ep in Eb.
  destruct (pack_loop_first_fit _ _ _ _ _ _ Eb) as (turns & Hw & Hfail).
  destruct turns as [| k].
  - left. rewrite Hw. simpl. lia.
  - right. rewrite Hw, Nat2Z.inj_succ, Z.pow_succ_r by lia.
    destruct (Hfail k ltac:(lia)) as (msg & a1 & h1 & Ea).
    pose proof (prepare_size _ _ _ _ _ Ep) as Hsize.
    pose proof (initial_size_pos (max_frame_height h0) (max_frame_width h0)
                  (total_pixel_area h0)) as Hpos.
    rewrite <- Hsize in Hpos.
    assert (0 < 2 ^ Z.of_nat k) as Hpow by (apply Z.pow_pos_nonneg; lia).
    destruct (Z.le_gt_cases (total_frame_width h0) (size0 * 2 ^ Z.of_nat k))
      as [Hle | Hgt]; [| nia].
    exfalso.
    destruct (attempt_roomy (size0 * 2 ^ Z.of_nat k) ts h0) as (a2 & h2 & Eok).
    + by eapply prepare_sizes_ok.
    + eapply prepare_roomy; [exact Hfs | exact Ep | nia | done].
    + rewrite Eok in Ea. discriminate.
Qed.

(** ** Inputs that are prepared without an error *)

Lemma parse_textures_total fs values ts h :
  Forall (fun path => is_Some (fs path)) values ->
  exists ts' h', parse_textures fs values ts h = Ok (ts', h').
Proof.
  intros Hall. revert ts h.
  induction Hall as [| path rest [img Himg] _ IH]; intros ts h; simpl.
  - eauto.
  - unfold Frame.init. unfold_result. rewrite Himg. simpl. apply IH.
Qed.

Lemma sorted_reverse_total {A} (key : A -> result Z) l :
  Forall (fun a => exists k, key a = Ok k) l ->
  exists l', sorted_reverse key l = Ok l'.
Proof.
  intros Hall. unfold sorted_reverse.
  assert (exists keyed, mapM (fun a => k ← key a; Ok (k, a)) l = Ok keyed)
    as [keyed ->].
  { induction Hall as [| a l [k Hk] _ [keyed IH]]; simpl; [by eexists |].
    unfold_result. rewrite Hk, IH. by eexists. }
  unfold_result. by eexists.
Qed.

(** When every path opens and the total area is not too large for a float,
    lines 241 to 268 raise nothing. *)
Lemma prepare_total {K} fs (texture_dict : list (K * string)) imgs :
  Forall2 (fun path img => fs path = Some img) (snd <$> texture_dict) imgs ->
  let h := zip_with frame_of_image (snd <$> texture_dict) imgs in
  total_pixel_area h < float_limit ->
  exists textures,
    prepare fs texture_dict =
      Ok (textures, h,
          initial_size (max_frame_height h) (max_frame_width h)
            (total_pixel_area h)).
Proof.
  intros Hall h Harea. unfold prepare.
  destruct (parse_textures_total fs (snd <$> texture_dict) [] [])
    as (ts & h0 & Ep).
  { apply Forall_forall. intros path Hin.
    apply list_elem_of_lookup in Hin as [i Hi].
    destruct (Forall2_lookup_l _ _ _ _ _ Hall Hi) as (img & _ & Himg).
    by exists img. }
  rewrite Ep. unfold_result.
  apply parse_textures_spec in Ep as (imgs' & Hall' & Hh0 & Hts).
  simpl in Hh0, Hts.
  assert (imgs' = imgs) as ->.
  { eapply Forall2_unique; [exact Hall' | exact Hall |].
    intros x y1 y2 H1 H2. congruence. }
  assert (h0 = h) as -> by done. subst ts.
  destruct (sorted_reverse_total (perimeter_key h)
              (textures_of 0 (snd <$> texture_dict))) as [sorted Es].
  { apply Forall_forall. intros t Ht.
    apply textures_of_elem in Ht as (i & path & _ & ->).
    unfold perimeter_key. simpl. by eexists. }
  rewrite Es.
  assert (frames_of sorted ≡ₚ seq 0 (length h)) as Hperm.
  { rewrite (frames_of_perm _ _ (sorted_reverse_perm _ _ _ Es)).
    rewrite frames_of_textures_of. f_equal.
    apply Forall2_length in Hall. unfold h.
    by rewrite length_zip_with, <- Hall, Nat.min_id. }
  rewrite (measure_spec _ _ Hperm).
  rewrite (proj2 (Z.leb_gt _ _)) by done.
  by exists sorted.
Qed.

Lemma foldr_max_replicate (n : nat) x l :
  (0 < n)%nat -> foldr Z.max 0 (replicate n x ++ l) = Z.max x (foldr Z.max 0 l).
Proof.
  intros Hn. induction n as [| n IH]; [lia |].
  destruct n as [| n]; [done |].
  change (replicate (S (S n)) x ++ l) with (x :: (replicate (S n) x ++ l)).
  cbn [foldr]. rewrite IH by lia. lia.
Qed.

Lemma foldr_add_replicate (n : nat) x l :
  foldr Z.add 0 (replicate n x ++ l) = Z.of_nat n * x + foldr Z.add 0 l.
Proof.
  induction n as [| n IH]; [simpl; lia |].
  change (replicate (S n) x ++ l) with (x :: (replicate n x ++ l)).
  cbn [foldr]. rewrite IH. lia.
Qed.

(** The frames of [n] strips and a dot: their largest height and width and
    their total area. *)
Lemma strip_frames_measure (n : nat) :
  (0 < n)%nat ->
  max_frame_height (strip_frames n) = 1 /\
  max_frame_width (strip_frames n) = 2 ^ 26 /\
  total_pixel_area (strip_frames n) = Z.of_nat n * 2 ^ 26 + 1.
Proof.
  intros Hn.
  unfold max_frame_height, max_frame_width, total_pixel_area, strip_frames.
  rewrite !fmap_app, !fmap_replicate.
  rewrite !foldr_max_replicate by done. rewrite foldr_add_replicate.
  repeat split.
Qed.

Lemma strip_frames_positive (n : nat) :
  Forall (fun f => 0 < Frame.width f /\ 0 < Frame.height f) (strip_frames n).
Proof.
  unfold strip_frames. apply Forall_app. split.
  - by apply Forall_replicate.
  - by apply Forall_singleton.
Qed.

(** What lines 241 to 268 give for [n] strips and a dot. *)
Lemma strips_prepare (n : nat) :
  (0 < n)%nat ->
  Z.of_nat n * 2 ^ 26 + 1 < float_limit ->
  exists textures,
    prepare strip_files (zip (seq 0 (S n)) (strip_paths n)) =
      Ok (textures, strip_frames n,
          initial_size 1 (2 ^ 26) (Z.of_nat n * 2 ^ 26 + 1)).
Proof.
  intros Hn Harea.
  destruct (strip_frames_measure n Hn) as (Hh & Hw & Ha).
  assert (length (strip_paths n) = S n) as Hlen.
  { unfold strip_paths. rewrite length_app, length_replicate. simpl. lia. }
  destruct (prepare_total strip_files (zip (seq 0 (S n)) (strip_paths n))
              (replicate n (solid (2 ^ 26) 1) ++ [solid 1 1]))
    as [textures E].
  - rewrite snd_zip by (rewrite length_seq; lia).
    apply Forall2_app; [by apply Forall2_replicate |].
    by apply Forall2_cons.
  - rewrite snd_zip by (rewrite length_seq; lia).
    unfold strip_paths.
    rewrite zip_with_app by (by rewrite !length_replicate).
    rewrite zip_with_replicate.
    change (total_pixel_area (strip_frames n) < float_limit).
    by rewrite Ha.
  - exists textures. rewrite E.
    rewrite snd_zip by (rewrite length_seq; lia).
    unfold strip_paths.
    rewrite zip_with_app by (by rewrite !length_replicate).
    rewrite zip_with_replicate.
    change (zip_with frame_of_image ["dot.png"] [solid 1 1])
      with [frame_of_image "dot.png" (solid 1 1)].
    fold (strip_frames n). by rewrite Hh, Hw, Ha.
Qed.

End FloatPower.

(** * The properties on the example inputs *)

(** The examples are run with the square root rounded to the nearest
    float. *)
#[global] Instance nearest_pow : FloatPow :=
  {| pow_half := nearest_sqrt; pow_half_faithful := nearest_sqrt_faithful |}.

Lemma files_decodes_ok l :
  Forall (fun entry => 0 <= Image.width entry.2 /\ 0 <= Image.height entry.2) l ->
  decodes_ok (files l).
Proof.
  intros Hall path img. induction Hall as [| [name i] l Hi _ IH]; simpl; [done |].
  destruct (String.eqb path name); [| exact IH].
  by intros [= <-].
Qed.

Lemma example_files_ok : decodes_ok example_files.
Proof. apply files_decodes_ok. repeat constructor; simpl; lia. Qed.

Lemma no_overlap_witness :
  exists atlas h,
    build example_files example_dict 2 = Some (Ok (atlas, h)) /\
    ~ intersect (h !!! 0%nat) (h !!! 1%nat).
Proof.
  eexists _, _. split; [vm_compute; reflexivity |].
  refine (proj2 (no_overlap example_files example_dict 2 _ _
                   example_files_ok _) 0%nat 1%nat _ _ _).
  - vm_compute. reflexivity.
  - vm_compute. repeat constructor.
  - vm_compute. repeat constructor.
  - discriminate.
Defined.

Lemma packed_frame_contained_witness :
  let h := [frame_of_image "a.png" (solid 5 5);
            frame_of_image "b.png" (solid 3 4)] in
  exists r1 h1 r2 h2,
    PackRegion.pack (PackRegion.init 0 0 8 8) 0%nat h = (true, r1, h1) /\
    PackRegion.pack r1 1%nat h1 = (true, r2, h2) /\
    0 <= Frame.x (h2 !!! 1%nat) /\ 0 <= Frame.y (h2 !!! 1%nat) /\
    Frame.x (h2 !!! 1%nat) + Frame.width (h2 !!! 1%nat) <= 8 /\
    Frame.y (h2 !!! 1%nat) + Frame.height (h2 !!! 1%nat) <= 8.
Proof.
  intros h.
  pose (s1 := PackRegion.pack (PackRegion.init 0 0 8 8) 0%nat h).
  pose (s2 := PackRegion.pack s1.1.2 1%nat s1.2).
  exists s1.1.2, s1.2, s2.1.2, s2.2.
  split; [vm_compute; reflexivity |]. split; [vm_compute; reflexivity |].
  apply (packed_frame_contained 8 s1.1.2 s1.2 1%nat s2.1.2 s2.2).
  - apply (reachable_pack 8 (PackRegion.init 0 0 8 8) h 0%nat true).
    + apply reachable_init. unfold sizes_ok, h.
      repeat (apply Forall_cons; split; [cbv; split; discriminate |]).
      by apply Forall_nil.
    + vm_compute. reflexivity.
  - vm_compute. lia.
  - vm_compute. reflexivity.
Defined.

(** Two textures with one name: the entry under the name is that of the
    second, so the entry of the first is not the tuple of its own frame. *)
Lemma uv_entry_counterexample :
  exists atlas h d t1,
    build example_files duplicate_dict 2 = Some (Ok (atlas, h)) /\
    TextureAtlas.width atlas = 16 /\ TextureAtlas.height atlas = 16 /\
    TextureAtlas.textures atlas !! 0%nat = Some t1 /\
    Texture.frames t1 = [0%nat] /\
    (Frame.x (h !!! 0%nat), Frame.y (h !!! 0%nat),
     Frame.width (h !!! 0%nat), Frame.height (h !!! 0%nat)) = (0, 0, 5, 5) /\
    TextureAtlas.to_dict atlas h = Ok d /\
    d !! Texture.name t1 = Some (0 # 16, 5 # 16, 5 # 16, 10 # 16)%Q /\
    uv_formula (h !!! 0%nat) 16 16 = (0 # 16, 0 # 16, 5 # 16, 5 # 16)%Q /\
    ~ uv_eq (0 # 16, 5 # 16, 5 # 16, 10 # 16)%Q (uv_formula (h !!! 0%nat) 16 16).
Proof.
  eexists _, _, _, _.
  split; [vm_compute; reflexivity |].
  split; [reflexivity |]. split; [reflexivity |].
  split; [reflexivity |]. split; [reflexivity |]. split; [reflexivity |].
  split; [vm_compute; reflexivity |].
  split; [vm_compute; reflexivity |].
  split; [vm_compute; reflexivity |].
  vm_compute. intros (_ & H & _). discriminate H.
Qed.

Lemma uv_entry_witness :
  exists atlas h d,
    build example_files example_dict 2 = Some (Ok (atlas, h)) /\
    TextureAtlas.to_dict atlas h = Ok d /\
    d !! "b.png" = Some (uv_formula (h !!! 1%nat) 16 16).
Proof.
  pose (s := build example_files example_dict 2).
  pose (atlas := match s with Some (Ok (a, _)) => a | _ => TextureAtlas.init 0 0 end).
  pose (h := match s with Some (Ok (_, h)) => h | _ => [] end).
  pose (r := TextureAtlas.to_dict atlas h).
  pose (d := match r with Ok d => d | _ => ∅ end).
  exists atlas, h, d.
  split; [vm_compute; reflexivity |].
  assert (TextureAtlas.to_dict atlas h = Ok d) as Hd by (vm_compute; reflexivity).
  split; [exact Hd |].
  destruct (uv_entry atlas h d
              [Texture.mk "a.png" [0%nat]] (Texture.mk "b.png" [1%nat])
              [Texture.mk "c.png" [2%nat]])
    as (frame0 & rest & Hf & Hentry & _).
  - vm_compute. reflexivity.
  - apply Forall_cons. split; [discriminate |]. by apply Forall_nil.
  - exact Hd.
  - injection Hf as <- _. exact Hentry.
Defined.

(** A frame of 5 by 5 does not fit an atlas of 1 by 1: the call raises, and
    the texture is in the packed sequence all the same. *)
Lemma pack_appends_first_counterexample :
  let texture := Texture.mk "a.png" [0%nat] in
  let h := [frame_of_image "a.png" (solid 5 5)] in
  exists self',
    TextureAtlas.pack (TextureAtlas.init 1 1) texture h =
      (Raise (AtlasTooSmall "Failed to pack frame a.png"), self', h) /\
    texture ∈ TextureAtlas.textures self'.
Proof.
  intros texture h. eexists. split; [vm_compute; reflexivity |].
  simpl. apply list_elem_of_singleton. reflexivity.
Qed.

Lemma pack_appends_first_witness :
  let texture := Texture.mk "a.png" [0%nat] in
  let h := [frame_of_image "a.png" (solid 5 5)] in
  exists res self' h',
    TextureAtlas.pack (TextureAtlas.init 1 1) texture h = (res, self', h') /\
    TextureAtlas.textures self' = [texture].
Proof.
  intros texture h.
  pose (s := TextureAtlas.pack (TextureAtlas.init 1 1) texture h).
  exists s.1.1, s.1.2, s.2.
  assert (TextureAtlas.pack (TextureAtlas.init 1 1) texture h = (s.1.1, s.1.2, s.2))
    as E by (vm_compute; reflexivity).
  split; [exact E |].
  exact (proj1 (pack_appends_first _ _ _ _ _ _ E)).
Defined.

(** One image under the keys [k1] and [k2]: both keys get the same entry. *)
Lemma duplicate_path_counterexample :
  let entry := (0 # 16, 5 # 16, 5 # 16, 10 # 16)%Q in
  exists texture_atlas,
    create_atlas example_files duplicate_dict 2 =
      Some (Ok (texture_atlas, [("k1", entry); ("k2", entry)], 16, 16)).
Proof. intros entry. eexists. vm_compute. reflexivity. Qed.

Lemma duplicate_path_same_entry_witness :
  exists entry r,
    create_atlas example_files duplicate_dict 2 = Some (Ok r) /\
    r.1.1.2 !! 0%nat = Some ("k1", entry) /\
    r.1.1.2 !! 1%nat = Some ("k2", entry).
Proof.
  pose (b := build example_files duplicate_dict 2).
  pose (atlas := match b with Some (Ok (a, _)) => a | _ => TextureAtlas.init 0 0 end).
  pose (h := match b with Some (Ok (_, h)) => h | _ => [] end).
  pose (c := create_atlas example_files duplicate_dict 2).
  pose (r := match c with Some (Ok r) => r | _ => ([], [], 0, 0) end).
  destruct (duplicate_path_same_entry example_files duplicate_dict 2 atlas h
              r.1.1.1 r.1.1.2 r.1.2 r.2 0%nat 1%nat "k1" "k2" "a.png")
    as (_ & _ & _ & entry & H1 & H2).
  - vm_compute. reflexivity.
  - vm_compute. reflexivity.
  - reflexivity.
  - reflexivity.
  - discriminate.
  - exists entry, r. split; [vm_compute; reflexivity |]. by split.
Defined.

(** With the root rounded to the nearest float, the area of [2^52] up to
    which the float computation gives the ceiling of the root is the
    largest one: at [2^52 + 1] the float root is [2^26]. *)
Lemma ceil_sqrt_bound_sharp :
  ceil_sqrt (2 ^ 52 + 1) = 2 ^ 26 /\ is_ceil_sqrt (2 ^ 52 + 1) (2 ^ 26 + 1).
Proof.
  split; [vm_compute; reflexivity |].
  split; [done |]. split; [done |]. intros j Hj Hle.
  destruct (Z.le_gt_cases (2 ^ 26 + 1) j) as [| Hlt]; [done |].
  assert (j * j <= 2 ^ 26 * 2 ^ 26) by nia.
  change (2 ^ 26 * 2 ^ 26) with (2 ^ 52) in *. lia.
Qed.

Lemma first_candidate_size_witness :
  exists textures h,
    prepare example_files example_dict = Ok (textures, h, 8) /\
    max_frame_height h = 5 /\ max_frame_width h = 5 /\
    total_pixel_area h = 47 /\
    is_ceil_sqrt 47 7 /\ is_next_power_of_two 7 8 /\
    Z.shiftl 1 (bit_length (7 - 1)) = 8.
Proof.
  pose (s := prepare example_files example_dict).
  pose (textures := match s with Ok (t, _, _) => t | _ => [] end).
  pose (h := match s with Ok (_, h, _) => h | _ => [] end).
  exists textures, h.
  assert (prepare example_files example_dict = Ok (textures, h, 8)) as E
    by (vm_compute; reflexivity).
  split; [exact E |].
  destruct (first_candidate_size example_files example_dict textures h 8 E)
    as (n & p & _ & _ & Hn & -> & Hp & -> & _).
  - discriminate.
  - unfold h. vm_compute.
    repeat (apply Forall_cons; split; [split; reflexivity |]). by apply Forall_nil.
  - unfold h. vm_compute. discriminate.
  - split; [reflexivity |]. split; [reflexivity |]. split; [reflexivity |].
    split; [exact Hn |]. split; [exact Hp |]. reflexivity.
Defined.

(** A total pixel area of [2^54 + 1], in two images and in [2^28] strips
    and a dot.  As a float the area is [2^54], and the first candidate size
    is [2^27]; the ceiling of the square root of the area is [2^27 + 1],
    and the smallest power of two that is at least that is [2^28]. *)
Lemma first_candidate_size_counterexample :
  is_ceil_sqrt (2 ^ 54 + 1) (2 ^ 27 + 1) /\
  is_next_power_of_two (2 ^ 27 + 1) (2 ^ 28) /\
  (exists textures h,
     prepare large_files large_dict = Ok (textures, h, 2 ^ 27) /\
     Forall (fun f => 0 < Frame.width f /\ 0 < Frame.height f) h /\
     max_frame_height h = 2 ^ 27 /\ max_frame_width h = 2 ^ 27 /\
     total_pixel_area h = 2 ^ 54 + 1 /\
     2 ^ 27 <>
       Z.max (max_frame_height h) (Z.max (max_frame_width h) (2 ^ 28))) /\
  (exists textures h,
     prepare strip_files strip_dict = Ok (textures, h, 2 ^ 27) /\
     Forall (fun f => 0 < Frame.width f /\ 0 < Frame.height f) h /\
     max_frame_height h = 1 /\ max_frame_width h = 2 ^ 26 /\
     total_pixel_area h = 2 ^ 54 + 1 /\
     2 ^ 27 <>
       Z.max (max_frame_height h) (Z.max (max_frame_width h) (2 ^ 28))).
Proof.
  split; [| split; [| split]].
  - split; [done |]. split; [done |]. intros j Hj Hle.
    destruct (Z.le_gt_cases (2 ^ 27 + 1) j) as [| Hlt]; [done |].
    assert (j * j <= 2 ^ 27 * 2 ^ 27) by nia.
    change (2 ^ 27 * 2 ^ 27) with (2 ^ 54) in *. lia.
  - split; [by exists 28 |]. split; [done |]. intros e He Hle.
    destruct (Z.le_gt_cases 28 e) as [| Hlt]; [by apply Z.pow_le_mono_r |].
    assert (2 ^ e <= 2 ^ 27) by (apply Z.pow_le_mono_r; lia). lia.
  - eexists _, _. split; [vm_compute; reflexivity |].
    split.
    { repeat (apply Forall_cons; split; [split; reflexivity |]).
      by apply Forall_nil. }
    by repeat split.
  - assert (Z.of_nat strip_count = 2 ^ 28) as Hc
      by (unfold strip_count; by apply Z2Nat.id).
    assert (0 < strip_count)%nat as Hpos
      by (apply Nat2Z.inj_lt; by rewrite Hc).
    destruct (strips_prepare strip_count Hpos) as [textures E];
      [by rewrite Hc |].
    destruct (strip_frames_measure strip_count Hpos) as (Hh & Hw & Ha).
    rewrite Hc in E, Ha.
    change (2 ^ 28 * 2 ^ 26 + 1) with (2 ^ 54 + 1) in E, Ha.
    assert (initial_size 1 (2 ^ 26) (2 ^ 54 + 1) = 2 ^ 27) as Hsize
      by (unfold initial_size; by rewrite ceil_sqrt_beyond).
    rewrite Hsize in E.
    exists textures, (strip_frames strip_count).
    split; [exact E |]. split; [apply strip_frames_positive |].
    rewrite Hh, Hw, Ha. by repeat split.
Qed.



(** The frame of [b.png] is packed at [(5, 0)] in the first turn, which
    fails on [c.png], and at [(0, 5)] in the second turn; before the first
    turn its position reads [(0, 0)]. *)
Lemma position_counterexample :
  exists textures h0 msg a1 h1 a2 h2,
    prepare example_files example_dict = Ok (textures, h0, 8) /\
    (Frame.x (h0 !!! 1%nat), Frame.y (h0 !!! 1%nat)) = (0, 0) /\
    attempt 8 textures h0 = (Raise (AtlasTooSmall msg), a1, h1) /\
    1%nat ∈ PackRegion.get_all_packables (TextureAtlas.region a1) /\
    (Frame.x (h1 !!! 1%nat), Frame.y (h1 !!! 1%nat)) = (5, 0) /\
    build example_files example_dict 2 = Some (Ok (a2, h2)) /\
    (Frame.x (h2 !!! 1%nat), Frame.y (h2 !!! 1%nat)) = (0, 5).
Proof.
  eexists _, _, _, _, _, _, _.
  split; [vm_compute; reflexivity |]. split; [reflexivity |].
  split; [vm_compute; reflexivity |].
  split; [vm_compute; repeat constructor |]. split; [reflexivity |].
  split; [vm_compute; reflexivity |]. reflexivity.
Qed.

Lemma position_kept_within_turn_witness :
  exists textures h0,
    prepare example_files example_dict = Ok (textures, h0, 8) /\
    Forall (fun f => Frame.x f = 0 /\ Frame.y f = 0) h0 /\
    NoDup (frames_of textures).
Proof.
  pose (s := prepare example_files example_dict).
  pose (textures := match s with Ok (t, _, _) => t | _ => [] end).
  pose (h := match s with Ok (_, h, _) => h | _ => [] end).
  exists textures, h.
  assert (prepare example_files example_dict = Ok (textures, h, 8)) as E
    by (vm_compute; reflexivity).
  split; [exact E |].
  destruct (position_kept_within_turn example_files example_dict textures h 8 E)
    as (H0 & Hnd & _).
  by split.
Defined.

Lemma refused_pack_changes_nothing_witness :
  let h := [frame_of_image "a.png" (solid 5 5);
            frame_of_image "b.png" (solid 3 4)] in
  let r := (PackRegion.pack (PackRegion.init 0 0 6 6) 0%nat h).1.2 in
  PackRegion.pack r 1%nat h = (false, r, h) /\ (r = r /\ h = h).
Proof.
  intros h r.
  assert (PackRegion.pack r 1%nat h = (false, r, h)) as E
    by (vm_compute; reflexivity).
  split; [exact E |].
  exact (refused_pack_changes_nothing r 1%nat h r h E).
Defined.

Lemma accepted_pack_effect_witness :
  let h := [frame_of_image "a.png" (solid 5 5);
            frame_of_image "b.png" (solid 3 4)] in
  let s := PackRegion.pack (PackRegion.init 0 0 8 8) 0%nat h in
  let s' := PackRegion.pack s.1.2 1%nat s.2 in
  s' = (true, s'.1.2, s'.2) /\
  PackRegion.get_all_packables s'.1.2 ≡ₚ [1%nat; 0%nat].
Proof.
  intros h s s'.
  assert (PackRegion.pack s.1.2 1%nat s.2 = (true, s'.1.2, s'.2)) as E
    by (vm_compute; reflexivity).
  split; [exact E |].
  exact (proj1 (accepted_pack_effect _ _ _ _ _ E)).
Defined.

Lemma atlas_area_suffices_witness :
  exists atlas h,
    build example_files example_dict 2 = Some (Ok (atlas, h)) /\
    total_pixel_area h <= TextureAtlas.width atlas * TextureAtlas.height atlas.
Proof.
  pose (b := build example_files example_dict 2).
  pose (atlas := match b with Some (Ok (a, _)) => a | _ => TextureAtlas.init 0 0 end).
  pose (h := match b with Some (Ok (_, h)) => h | _ => [] end).
  exists atlas, h.
  assert (build example_files example_dict 2 = Some (Ok (atlas, h))) as E
    by (vm_compute; reflexivity).
  split; [exact E |].
  exact (atlas_area_suffices example_files example_dict 2 atlas h
           example_files_ok E).
Defined.

Lemma returned_table_keys_witness :
  exists r,
    create_atlas example_files example_dict 2 = Some (Ok r) /\
    fst <$> r.1.1.2 = ["a"; "b"; "c"].
Proof.
  pose (c := create_atlas example_files example_dict 2).
  pose (r := match c with Some (Ok r) => r | _ => ([], [], 0, 0) end).
  exists r.
  assert (create_atlas example_files example_dict 2
          = Some (Ok (r.1.1.1, r.1.1.2, r.1.2, r.2))) as E
    by (vm_compute; reflexivity).
  split; [vm_compute; reflexivity |].
  exact (proj1 (returned_table_keys _ _ _ _ _ _ _ E)).
Defined.

Lemma unopenable_path_raises_witness :
  create_atlas example_files [("a", "a.png"); ("m", "missing.png"); ("b", "b.png")] 0
    = Some (Raise (ImageOpenError "missing.png")).
Proof.
  apply (unopenable_path_raises example_files [("a", "a.png")] [("b", "b.png")]
           "m" "missing.png" 0).
  - apply Forall_cons. split; [by eexists | by apply Forall_nil].
  - reflexivity.
Defined.

Lemma initial_size_bounds_witness :
  exists textures h size,
    prepare example_files example_dict = Ok (textures, h, size) /\
    1 <= size /\ total_pixel_area h <= size * size.
Proof.
  pose (s := prepare example_files example_dict).
  pose (textures := match s with Ok (t, _, _) => t | _ => [] end).
  pose (h := match s with Ok (_, h, _) => h | _ => [] end).
  exists textures, h, 8.
  assert (prepare example_files example_dict = Ok (textures, h, 8)) as E
    by (vm_compute; reflexivity).
  split; [exact E |].
  destruct (initial_size_bounds example_files example_dict textures h 8
              example_files_ok E) as (H1 & H2 & _).
  split; [done |]. apply H2. unfold h. vm_compute. discriminate.
Defined.

Lemma first_texture_at_origin_witness :
  exists atlas h,
    build example_files example_dict 2 = Some (Ok (atlas, h)) /\
    exists p : addr,
      Texture.frames (Texture.mk "a.png" [0%nat]) = [p] /\
      Frame.x (h !!! p) = 0 /\ Frame.y (h !!! p) = 0.
Proof.
  pose (b := build example_files example_dict 2).
  pose (atlas := match b with Some (Ok (a, _)) => a | _ => TextureAtlas.init 0 0 end).
  pose (h := match b with Some (Ok (_, h)) => h | _ => [] end).
  exists atlas, h.
  assert (build example_files example_dict 2 = Some (Ok (atlas, h))) as E
    by (vm_compute; reflexivity).
  split; [exact E |].
  apply (first_texture_at_origin example_files example_dict 2 atlas h
           (Texture.mk "a.png" [0%nat])
           [Texture.mk "b.png" [1%nat]; Texture.mk "c.png" [2%nat]]
           example_files_ok E).
  vm_compute. reflexivity.
Defined.

Lemma sorted_reverse_spec_witness :
  let key := fun p : Z * string => Ok p.1 in
  let l := [(1, "a"); (3, "b"); (1, "c"); (3, "d")] in
  sorted_reverse key l = Ok [(3, "b"); (3, "d"); (1, "a"); (1, "c")] /\
  StronglySorted (fun a b : Z * string => b.1 <= a.1)
    [(3, "b"); (3, "d"); (1, "a"); (1, "c")].
Proof.
  intros key l.
  assert (sorted_reverse key l = Ok [(3, "b"); (3, "d"); (1, "a"); (1, "c")])
    as E by reflexivity.
  split; [exact E |].
  exact (proj1 (proj2 (sorted_reverse_spec key fst l _ (fun a _ => eq_refl) E))).
Defined.

Lemma packed_by_perimeter_witness :
  exists atlas h,
    build example_files example_dict 2 = Some (Ok (atlas, h)) /\
    StronglySorted
      (fun a b => texture_perimeter h b <= texture_perimeter h a)
      (TextureAtlas.textures atlas).
Proof.
  pose (b := build example_files example_dict 2).
  pose (atlas := match b with Some (Ok (a, _)) => a | _ => TextureAtlas.init 0 0 end).
  pose (h := match b with Some (Ok (_, h)) => h | _ => [] end).
  exists atlas, h.
  assert (build example_files example_dict 2 = Some (Ok (atlas, h))) as E
    by (vm_compute; reflexivity).
  split; [exact E |].
  exact (proj1 (packed_by_perimeter example_files example_dict 2 atlas h E)).
Defined.

Lemma to_dict_outcome_witness :
  let h := [frame_of_image "a.png" (solid 5 5)] in
  TextureAtlas.to_dict
    (TextureAtlas.mk (PackRegion.init 0 0 8 8) [Texture.mk "a.png" []]) h =
    Raise IndexError /\
  TextureAtlas.to_dict
    (TextureAtlas.mk (PackRegion.init 0 0 0 8) [Texture.mk "a.png" [0%nat]]) h =
    Raise ZeroDivisionError /\
  TextureAtlas.to_dict
    (TextureAtlas.mk (PackRegion.init 0 0 1 1) [Texture.mk "a.png" [0%nat]])
    [Frame.set_x (frame_of_image "a.png" (solid 1 1)) float_limit] =
    Raise OverflowError.
Proof.
  intros h. split; [| split].
  - apply (proj1 (proj2 (to_dict_outcome _ _))
             [] (Texture.mk "a.png" []) [] IndexError);
      reflexivity || constructor.
  - apply (proj1 (proj2 (to_dict_outcome _ _))
             [] (Texture.mk "a.png" [0%nat]) [] ZeroDivisionError);
      reflexivity || constructor.
  - apply (proj1 (proj2 (to_dict_outcome _ _))
             [] (Texture.mk "a.png" [0%nat]) [] OverflowError);
      reflexivity || constructor.
Defined.

Lemma to_dict_keys_witness :
  exists atlas h d,
    build example_files duplicate_dict 2 = Some (Ok (atlas, h)) /\
    TextureAtlas.to_dict atlas h = Ok d /\
    (is_Some (d !! "a.png") <->
     "a.png" ∈ Texture.name <$> TextureAtlas.textures atlas).
Proof.
  pose (s := build example_files duplicate_dict 2).
  pose (atlas := match s with Some (Ok (a, _)) => a | _ => TextureAtlas.init 0 0 end).
  pose (h := match s with Some (Ok (_, h)) => h | _ => [] end).
  pose (r := TextureAtlas.to_dict atlas h).
  pose (d := match r with Ok d => d | _ => ∅ end).
  exists atlas, h, d.
  split; [vm_compute; reflexivity |].
  assert (TextureAtlas.to_dict atlas h = Ok d) as Hd by (vm_compute; reflexivity).
  split; [exact Hd |].
  exact (proj1 (to_dict_keys atlas h d Hd "a.png")).
Defined.

Lemma returned_size_and_buffer_witness :
  exists r,
    create_atlas example_files example_dict 2 = Some (Ok r) /\
    r.1.2 = r.2 /\ Z.of_nat (length r.1.1.1) = r.1.2 * r.2 * 4.
Proof.
  pose (c := create_atlas example_files example_dict 2).
  pose (r := match c with Some (Ok r) => r | _ => ([], [], 0, 0) end).
  exists r.
  assert (create_atlas example_files example_dict 2
          = Some (Ok (r.1.1.1, r.1.1.2, r.1.2, r.2))) as E
    by (vm_compute; reflexivity).
  split; [vm_compute; reflexivity |].
  destruct (returned_size_and_buffer _ _ _ _ _ _ _ E) as (H1 & H2 & _).
  by split.
Defined.

Lemma generated_pixels_witness :
  exists atlas h,
    build example_files example_dict 2 = Some (Ok (atlas, h)) /\
    pixel_at (TextureAtlas.generate atlas h) 2 6 =
      Some (Image.getpixel (Frame.image (h !!! 1%nat))
              (2 - Frame.x (h !!! 1%nat)) (6 - Frame.y (h !!! 1%nat))).
Proof.
  pose (b := build example_files example_dict 2).
  pose (atlas := match b with Some (Ok (a, _)) => a | _ => TextureAtlas.init 0 0 end).
  pose (h := match b with Some (Ok (_, h)) => h | _ => [] end).
  exists atlas, h.
  assert (build example_files example_dict 2 = Some (Ok (atlas, h))) as E
    by (vm_compute; reflexivity).
  split; [exact E |].
  apply (proj1 (generated_pixels example_files example_dict 2 atlas h 2 6
                  example_files_ok E ltac:(vm_compute; split; [discriminate | reflexivity])
                  ltac:(vm_compute; split; [discriminate | reflexivity]))).
  - vm_compute. apply elem_of_cons. right. apply elem_of_cons. by left.
  - vm_compute. repeat split; discriminate.
Defined.

Lemma first_fitting_size_witness :
  exists atlas h,
    build example_files example_dict 2 = Some (Ok (atlas, h)) /\
    exists textures h0 size0 (turns : nat),
      prepare example_files example_dict = Ok (textures, h0, size0) /\
      TextureAtlas.width atlas = size0 * 2 ^ Z.of_nat turns.
Proof.
  pose (b := build example_files example_dict 2).
  pose (atlas := match b with Some (Ok (a, _)) => a | _ => TextureAtlas.init 0 0 end).
  pose (h := match b with Some (Ok (_, h)) => h | _ => [] end).
  exists atlas, h.
  assert (build example_files example_dict 2 = Some (Ok (atlas, h))) as E
    by (vm_compute; reflexivity).
  split; [exact E |].
  destruct (first_fitting_size example_files example_dict 2 atlas h E)
    as (ts & h0 & size0 & turns & Ep & Hw & _).
  exists ts, h0, size0, turns. split; [exact Ep | exact Hw].
Defined.

Lemma frames_inside_atlas_witness :
  exists atlas h,
    build example_files example_dict 2 = Some (Ok (atlas, h)) /\
    Frame.x (h !!! 2%nat) + Frame.width (h !!! 2%nat) <= TextureAtlas.width atlas /\
    Frame.y (h !!! 2%nat) + Frame.height (h !!! 2%nat) <= TextureAtlas.height atlas.
Proof.
  pose (b := build example_files example_dict 2).
  pose (atlas := match b with Some (Ok (a, _)) => a | _ => TextureAtlas.init 0 0 end).
  pose (h := match b with Some (Ok (_, h)) => h | _ => [] end).
  exists atlas, h.
  assert (build example_files example_dict 2 = Some (Ok (atlas, h))) as E
    by (vm_compute; reflexivity).
  split; [exact E |].
  destruct (frames_inside_atlas example_files example_dict 2 atlas h 2%nat
              example_files_ok E) as (_ & _ & H1 & H2).
  - vm_compute. do 2 (apply elem_of_cons; right). apply elem_of_cons. by left.
  - by split.
Defined.

Lemma returned_uv_in_unit_square_witness :
  exists r,
    create_atlas example_files example_dict 2 = Some (Ok r) /\
    ("b", (0 # 16, 5 # 16, 3 # 16, 8 # 16)%Q) ∈ r.1.1.2 /\
    in_unit (8 # 16).
Proof.
  pose (c := create_atlas example_files example_dict 2).
  pose (r := match c with Some (Ok r) => r | _ => ([], [], 0, 0) end).
  exists r.
  assert (create_atlas example_files example_dict 2
          = Some (Ok (r.1.1.1, r.1.1.2, r.1.2, r.2))) as E
    by (vm_compute; reflexivity).
  assert (("b", (0 # 16, 5 # 16, 3 # 16, 8 # 16)%Q) ∈ r.1.1.2) as Hin.
  { vm_compute. apply elem_of_cons. right. apply elem_of_cons. by left. }
  split; [vm_compute; reflexivity |]. split; [exact Hin |].
  destruct (returned_uv_in_unit_square example_files example_dict 2
              _ _ _ _ "b" _ _ _ _ example_files_ok E Hin)
    as (_ & _ & _ & Hv1 & _).
  exact Hv1.
Defined.

Lemma single_image_witness :
  exists texture_atlas,
    create_atlas example_files single_dict 1 =
      Some (Ok (texture_atlas,
                [("k", uv_formula (frame_of_image "b.png" (solid 3 4)) 4 4)],
                4, 4)) /\
    uv_formula (frame_of_image "b.png" (solid 3 4)) 4 4 =
      (0 # 4, 0 # 4, 3 # 4, 3 # 4)%Q.
Proof.
  exists (Canvas.ravel
            (draw (frame_of_image "b.png" (solid 3 4)) (Canvas.new 4 4))).
  split; [| reflexivity].
  assert (initial_size (Image.height (solid 3 4)) (Image.width (solid 3 4))
            (Image.height (solid 3 4) * Image.width (solid 3 4)) = 4) as Hsize
    by (vm_compute; reflexivity).
  pose proof (single_image example_files "k" "b.png" (solid 3 4) 0
                eq_refl ltac:(simpl; lia) ltac:(simpl; lia) eq_refl) as H.
  cbv zeta in H. rewrite Hsize in H. exact H.
Defined.

Lemma atlas_side_bound_witness :
  exists atlas h,
    build example_files example_dict 2 = Some (Ok (atlas, h)) /\
    exists textures h0 size0,
      prepare example_files example_dict = Ok (textures, h0, size0) /\
      (TextureAtlas.width atlas = size0 \/
       TextureAtlas.width atlas < 2 * total_frame_width h).
Proof.
  pose (b := build example_files example_dict 2).
  pose (atlas := match b with Some (Ok (a, _)) => a | _ => TextureAtlas.init 0 0 end).
  pose (h := match b with Some (Ok (_, h)) => h | _ => [] end).
  exists atlas, h.
  assert (build example_files example_dict 2 = Some (Ok (atlas, h))) as E
    by (vm_compute; reflexivity).
  split; [exact E |].
  exact (atlas_side_bound example_files example_dict 2 atlas h
           example_files_ok E).
Defined.
